(** * bin/plugin/lib/milestone.js

    A shallow embedding of the two helpers of the release tooling,
    [getMilestoneByTitle] and [getIssuesByMilestone], over a model of the
    Octokit REST client, and the properties of the two helpers.

    The REST client is the only collaborator.  It is modelled as a record of
    canned responses (one per endpoint), and every asynchronous request the
    helpers await is threaded through a small monad that logs the request and
    either delivers the response or throws. *)

From Stdlib Require Import String Ascii List ZArith Bool Lia.
Import ListNotations.
Local Open Scope string_scope.
Local Open Scope list_scope.

(** ** Strings

    The string operations the module uses, [String.prototype.startsWith]
    and [String.prototype.replace] with a string pattern ([===] on strings
    is [String.eqb]), and what it means for a pattern to occur in a
    string. *)

Module JsString.

Local Open Scope string_scope.

(** [s.startsWith(search)]. *)
Definition startsWith (s search : string) : bool := String.prefix search s.

(** [s.slice(n)] for [0 <= n]. *)
Fixpoint slice (n : nat) (s : string) : string :=
  match n, s with
  | O, _ => s
  | S n', String _ s' => slice n' s'
  | S _, EmptyString => EmptyString
  end.

(** [s.replace(pattern, replacement)] with a string [pattern]: only the
    first occurrence of [pattern], searched from the left, is replaced.
    (The replacement strings of the module contain no [$] pattern.) *)
Fixpoint replace (pattern replacement s : string) : string :=
  if String.prefix pattern s
  then replacement ++ slice (String.length pattern) s
  else match s with
       | EmptyString => EmptyString
       | String c s' => String c (replace pattern replacement s')
       end.

(** [pattern] occurs in [s] at offset [length before]. *)
Definition occurs_at (pattern before s : string) : Prop :=
  exists rest, s = before ++ pattern ++ rest.

Definition occurs (pattern s : string) : Prop :=
  exists before, occurs_at pattern before s.

End JsString.

(** ** Data model

    The records of the REST API, restricted to the fields the module reads
    (plus an identifying number, standing for the fields it passes through).
    A field the API types as [string | null] is an [option string], with
    [None] for [null]. *)

Record Milestone := {
  milestone_number : Z;
  title : string
}.

Record Release := {
  release_id : Z;
  name : option string;
  published_at : option string
}.

Record Issue := {
  issue_number : Z;
  closed_at : option string
}.

(** [@typedef {"open"|"closed"|"all"} IssueState] *)
Inductive IssueState := open | closed | all.

(** The object handed to [octokit.issues.listForRepo.endpoint.merge].
    [state] is [None] when the caller left the optional argument out;
    [since] is [None] when the object has no [since] key, and [Some v] when
    it has the key with value [v] (which may be [null]). *)
Record IssueOptions := {
  options_owner : string;
  options_repo : string;
  options_milestone : Z;
  options_state : option IssueState;
  options_since : option (option string)
}.

(** What an awaited call can throw: an error of the client (transport,
    authorization, not found, ...; the status stands for its content), or the
    [TypeError] of the language on a property access on [null]. *)
Inductive Exception :=
| RequestError (status : Z)
| TypeError.

(** The requests the module sends.  A paginated endpoint is asked page by
    page; [page] counts the pages of one iterator from 0. *)
Inductive Request :=
| GetMilestone (owner repo : string) (milestone_number : Z)
| ListMilestones (owner repo : string) (page : nat)
| ListReleases (owner repo : string) (page : nat)
| ListForRepo (options : IssueOptions) (page : nat).

(** The client, as the responses it would give.  For a paginated endpoint
    this is the sequence of responses [octokit.paginate.iterator] yields, in
    order; a response is either the page's [data] or the error thrown when
    that page is awaited. *)
Record Octokit := {
  issues_getMilestone : string -> string -> Z -> Exception + Milestone;
  issues_listMilestones : string -> string -> list (Exception + list Milestone);
  repos_listReleases : string -> string -> list (Exception + list Release);
  issues_listForRepo : IssueOptions -> list (Exception + list Issue)
}.

(** ** The monad of awaited requests

    A computation takes the log of the requests sent so far and returns its
    outcome (a value, or the exception thrown) with the extended log.  Each
    log entry records the request and, when it failed, the error. *)

Definition Event : Type := Request * option Exception.
Definition Log : Type := list Event.
Definition Async (A : Type) : Type := Log -> (Exception + A) * Log.

Definition ret {A} (a : A) : Async A := fun log => (inr a, log).

Definition throw {A} (e : Exception) : Async A := fun log => (inl e, log).

Definition bind {A B} (m : Async A) (k : A -> Async B) : Async B :=
  fun log =>
    match m log with
    | (inr a, log') => k a log'
    | (inl e, log') => (inl e, log')
    end.

(** Awaiting a request: the request is logged, and its response delivered
    or thrown. *)
Definition await {A} (request : Request) (response : Exception + A) : Async A :=
  fun log =>
    (response,
     log ++ [(request, match response with inl e => Some e | inr _ => None end)]).

(** A synchronous step that may throw. *)
Definition lift {A} (r : Exception + A) : Async A :=
  match r with
  | inl e => throw e
  | inr a => ret a
  end.

Declare Scope async_scope.
Delimit Scope async_scope with async.
Notation "x <- m ;; k" := (bind m (fun x => k))
  (at level 61, m at next level, right associativity) : async_scope.
Local Open Scope async_scope.

Definition run {A} (m : Async A) : (Exception + A) * Log := m [].
Definition outcome {A} (m : Async A) : Exception + A := fst (run m).
Definition requests {A} (m : Async A) : Log := snd (run m).

(** The errors of the failed requests of a log. *)
Definition failures (log : Log) : list Exception :=
  flat_map (fun ev : Event => match snd ev with Some e => [e] | None => [] end) log.

(** ** getMilestoneByTitle *)

(** [for ( const milestone of milestones ) if ( milestone.title === title )
    return milestone;] with [None] when the loop ends without returning. *)
Fixpoint for_of_milestones (sought : string) (milestones : list Milestone)
  : option Milestone :=
  match milestones with
  | [] => None
  | milestone :: rest =>
      if String.eqb (title milestone) sought then Some milestone
      else for_of_milestones sought rest
  end.

(** [for await ( const response of responses )] of [getMilestoneByTitle]. *)
Fixpoint for_await_milestones (owner repo sought : string)
    (responses : list (Exception + list Milestone)) (page : nat)
  : Async (option Milestone) :=
  match responses with
  | [] => ret None
  | response :: rest =>
      milestones <- await (ListMilestones owner repo page) response ;;
      match for_of_milestones sought milestones with
      | Some milestone => ret (Some milestone)
      | None => for_await_milestones owner repo sought rest (S page)
      end
  end.

Definition getMilestoneByTitle (octokit : Octokit) (owner repo sought : string)
  : Async (option Milestone) :=
  for_await_milestones owner repo sought
    (issues_listMilestones octokit owner repo) 0.

(** ** getIssuesByMilestone *)

(** [milestoneResponse.data.title.replace( 'Gutenberg ', '' )] *)
Definition series_of_title (t : string) : string :=
  JsString.replace "Gutenberg " "" t.

(** [releasesPage.data.find( ( release ) => release.name.startsWith( series ) )]:
    the callback reads [startsWith] off [release.name], which throws when the
    name is [null]. *)
Fixpoint find_release (series : string) (data : list Release)
  : Exception + option Release :=
  match data with
  | [] => inr None
  | release :: rest =>
      match name release with
      | None => inl TypeError
      | Some n =>
          if JsString.startsWith n series then inr (Some release)
          else find_release series rest
      end
  end.

(** The release scan, lines 70 to 82: [latestReleaseInSeries] after the
    loop. *)
Fixpoint for_await_releases (owner repo series : string)
    (releases : list (Exception + list Release)) (page : nat)
  : Async (option Release) :=
  match releases with
  | [] => ret None
  | response :: rest =>
      releasesPage <- await (ListReleases owner repo page) response ;;
      latestReleaseInSeries <- lift (find_release series releasesPage) ;;
      match latestReleaseInSeries with
      | Some release => ret (Some release)
      | None => for_await_releases owner repo series rest (S page)
      end
  end.

(** The object merged into the issue-list options, lines 84 to 92. *)
Definition listForRepo_options (owner repo : string) (milestone : Z)
    (state : option IssueState) (latestReleaseInSeries : option Release)
  : IssueOptions :=
  {| options_owner := owner;
     options_repo := repo;
     options_milestone := milestone;
     options_state := state;
     options_since :=
       match latestReleaseInSeries with
       | Some release => Some (published_at release)
       | None => None
       end |}.

(** Lines 94 to 104: every page is pushed onto [pulls]. *)
Fixpoint for_await_issues (options : IssueOptions)
    (responses : list (Exception + list Issue)) (page : nat)
    (pulls : list Issue) : Async (list Issue) :=
  match responses with
  | [] => ret pulls
  | response :: rest =>
      issues <- await (ListForRepo options page) response ;;
      for_await_issues options rest (S page) (pulls ++ issues)
  end.

(** [a < b] on two [Date]s compares their time values; a comparison with
    an invalid date ([NaN], here [None]) is false. *)
Definition Date_lt (a b : option Z) : bool :=
  match a, b with
  | Some x, Some y => (x <? y)%Z
  | _, _ => false
  end.

Section Collector.

(** [new Date( string )], as the time value of the date in milliseconds,
    [None] for an invalid date. *)
Variable new_Date : string -> option Z.

(** The callback of [pulls.filter], lines 112 to 114.  [pull.closed_at] is
    truthy when it is a non-empty string; [null] and the empty string are
    falsy, and then no date is built. *)
Definition closed_after_release (latestReleasePublishedAtTimestamp : option Z)
    (pull : Issue) : bool :=
  match closed_at pull with
  | Some (String _ _ as c) =>
      Date_lt latestReleasePublishedAtTimestamp (new_Date c)
  | _ => false
  end.

(** Lines 106 to 118: the filter runs when
    [latestReleaseInSeries?.published_at] is truthy, that is when a release
    was found and its [published_at] is a non-empty string. *)
Definition post_filter (latestReleaseInSeries : option Release)
    (pulls : list Issue) : list Issue :=
  match latestReleaseInSeries with
  | Some release =>
      match published_at release with
      | Some (String _ _ as p) =>
          filter (closed_after_release (new_Date p)) pulls
      | _ => pulls
      end
  | None => pulls
  end.

Definition getIssuesByMilestone (octokit : Octokit) (owner repo : string)
    (milestone : Z) (state : option IssueState) : Async (list Issue) :=
  milestoneResponse <-
    await (GetMilestone owner repo milestone)
          (issues_getMilestone octokit owner repo milestone) ;;
  let series := series_of_title (title milestoneResponse) in
  latestReleaseInSeries <-
    for_await_releases owner repo series
      (repos_listReleases octokit owner repo) 0 ;;
  let options :=
    listForRepo_options owner repo milestone state latestReleaseInSeries in
  pulls <- for_await_issues options (issues_listForRepo octokit options) 0 [] ;;
  ret (post_filter latestReleaseInSeries pulls).

End Collector.

(** ** A [Date] constructor for concrete runs

    The timestamps of the REST API are ISO 8601 in UTC with second
    precision, [YYYY-MM-DDTHH:MM:SSZ].  This reader gives their time value
    and rejects every other string; it instantiates [new_Date] where a
    property is run on concrete data. *)

Module Iso8601.

Local Open Scope Z_scope.

Definition digit (c : ascii) : option Z :=
  let n := Z.of_nat (nat_of_ascii c) in
  if (48 <=? n) && (n <=? 57) then Some (n - 48) else None.

Fixpoint number (acc : Z) (cs : list ascii) : option Z :=
  match cs with
  | [] => Some acc
  | c :: cs' =>
      match digit c with
      | Some d => number (10 * acc + d) cs'
      | None => None
      end
  end.

Definition leap (y : Z) : bool :=
  (y mod 4 =? 0) && (negb (y mod 100 =? 0) || (y mod 400 =? 0)).

Definition days_in_month (y m : Z) : Z :=
  if m =? 2 then (if leap y then 29 else 28)
  else if (m =? 4) || (m =? 6) || (m =? 9) || (m =? 11) then 30
  else 31.

(** Days from 1970-01-01 to the given day of the proleptic Gregorian
    calendar. *)
Definition days_from_civil (y m d : Z) : Z :=
  let y' := if m <=? 2 then y - 1 else y in
  let era := y' / 400 in
  let yoe := y' - era * 400 in
  let doy := (153 * (if 2 <? m then m - 3 else m + 9) + 2) / 5 + d - 1 in
  let doe := yoe * 365 + yoe / 4 - yoe / 100 + doy in
  era * 146097 + doe - 719468.

Definition is_char (c : ascii) (expected : string) : bool :=
  String.eqb (String c EmptyString) expected.

Definition time_value (y m d h mi sec : Z) : option Z :=
  if (1 <=? m) && (m <=? 12) && (1 <=? d) && (d <=? days_in_month y m)
     && (h <=? 23) && (mi <=? 59) && (sec <=? 59)
  then Some ((((days_from_civil y m d * 24 + h) * 60 + mi) * 60 + sec) * 1000)
  else None.

Definition parse (s : string) : option Z :=
  match list_ascii_of_string s with
  | [y1; y2; y3; y4; c1; m1; m2; c2; d1; d2; t;
     h1; h2; c3; n1; n2; c4; s1; s2; z] =>
      if is_char c1 "-" && is_char c2 "-" && is_char t "T"
         && is_char c3 ":" && is_char c4 ":" && is_char z "Z"
      then
        match number 0 [y1; y2; y3; y4], number 0 [m1; m2],
              number 0 [d1; d2], number 0 [h1; h2], number 0 [n1; n2],
              number 0 [s1; s2] with
        | Some y, Some m, Some d, Some h, Some mi, Some sec =>
            time_value y m d h mi sec
        | _, _, _, _, _, _ => None
        end
      else None
  | _ => None
  end.

End Iso8601.

(** ** Vocabulary of the properties *)

(** The log entries of [n] successful page requests, pages [start],
    [start + 1], ... in this order. *)
Definition page_events (mk : nat -> Request) (start n : nat) : Log :=
  map (fun page => (mk page, None)) (seq start n).

(** A release whose name starts with the series. *)
Definition in_series (series : string) (release : Release) : bool :=
  match name release with
  | Some n => JsString.startsWith n series
  | None => false
  end.

(** A release with a name that does not start with the series. *)
Definition out_of_series (series : string) (release : Release) : bool :=
  match name release with
  | Some n => negb (JsString.startsWith n series)
  | None => false
  end.

(** [first_in_series series releases latest scanned]: in the pages of
    [releases], taken in order, [latest] is the first release whose name
    starts with [series], found on page [scanned - 1] after pages that all
    arrived; or [latest] is absent, and all [scanned] pages arrived and none
    holds a release whose name starts with [series].  The releases before
    the first match all have a name. *)
Definition first_in_series (series : string)
    (releases : list (Exception + list Release))
    (latest : option Release) (scanned : nat) : Prop :=
  match latest with
  | Some release =>
      exists earlier before after later,
        releases = map inr earlier ++ inr (before ++ release :: after) :: later
        /\ Forall (fun r => out_of_series series r = true)
                  (concat earlier ++ before)
        /\ in_series series release = true
        /\ scanned = S (length earlier)
  | None =>
      exists pages,
        releases = map inr pages
        /\ Forall (fun r => out_of_series series r = true) (concat pages)
        /\ scanned = length pages
  end.

(** [scan_throws series releases e]: the pages of [releases] arrive and
    hold only named releases out of [series], up to a page that fails with
    [e], or up to a page in which a release without a name comes before any
    release of [series], and then [e] is the [TypeError]. *)
Definition scan_throws (series : string)
    (releases : list (Exception + list Release)) (e : Exception) : Prop :=
  exists earlier later,
    Forall (fun r => out_of_series series r = true) (concat earlier) /\
    (releases = map inr earlier ++ inl e :: later \/
     exists before release after,
       e = TypeError
       /\ releases = map inr earlier ++ inr (before ++ release :: after) :: later
       /\ Forall (fun r => out_of_series series r = true) before
       /\ name release = None).

(** What the pages of releases make of the scan: its result, read off the
    pages. *)
Definition scan_result (series : string)
    (releases : list (Exception + list Release))
    (result : Exception + option Release) : Prop :=
  match result with
  | inr latest => exists scanned, first_in_series series releases latest scanned
  | inl e => scan_throws series releases e
  end.

(** What the pages of milestones make of the lookup of [sought]: the first
    milestone with the title, after pages that arrived; nothing, when all
    pages arrived and none holds the title; the error of the first page that
    fails, when no page before it holds the title. *)
Definition lookup_result (sought : string)
    (responses : list (Exception + list Milestone))
    (result : Exception + option Milestone) : Prop :=
  match result with
  | inr (Some m) =>
      exists earlier before after later,
        responses = map inr earlier ++ inr (before ++ m :: after) :: later
        /\ Forall (fun x => title x <> sought) (concat earlier ++ before)
        /\ title m = sought
  | inr None =>
      exists pages,
        responses = map inr pages
        /\ Forall (fun x => title x <> sought) (concat pages)
  | inl e =>
      exists earlier later,
        responses = map inr earlier ++ inl e :: later
        /\ Forall (fun x => title x <> sought) (concat earlier)
  end.

(** What the pages of issues make of the accumulation: their concatenation
    when all arrive, the error of the first page that fails otherwise. *)
Definition collect_result (responses : list (Exception + list Issue))
    (result : Exception + list Issue) : Prop :=
  match result with
  | inr pulls => exists pages, responses = map inr pages /\ pulls = concat pages
  | inl e => exists pages later, responses = map inr pages ++ inl e :: later
  end.

(** In the words of the specification: the closed-at timestamp of [pull] is
    non-null and strictly later than the publish timestamp [p]. *)
Definition closed_strictly_after (new_Date : string -> option Z) (p : string)
    (pull : Issue) : bool :=
  match closed_at pull with
  | Some c => Date_lt (new_Date p) (new_Date c)
  | None => false
  end.

(** A computation that stops at the first failed request: it only extends
    the log; when it returns, no request has failed; when it throws, either
    no request has failed (the exception is its own) or the failed request is
    the last one sent and its error is the exception thrown. *)
Definition stops_at_failure {A} (m : Async A) : Prop :=
  forall log,
    exists evs,
      snd (m log) = log ++ evs /\
      match fst (m log) with
      | inr _ => failures evs = []
      | inl e =>
          failures evs = [] \/
          exists earlier request,
            evs = earlier ++ [(request, Some e)] /\ failures earlier = []
      end.

(** A computation whose outcome and requests do not depend on the requests
    sent before it. *)
Definition history_free {A} (m : Async A) : Prop :=
  forall log, m log = (outcome m, log ++ requests m).

(** ** Sample data

    A milestone, releases and issues in the shape the API returns them, and
    a client that answers with given responses whatever the owner, repository
    and options are.  The properties are run on them. *)

Module Sample.

Definition owner : string := "WordPress".
Definition repo : string := "gutenberg".

Definition gutenberg_16_2 : Milestone :=
  {| milestone_number := 95; title := "Gutenberg 16.2" |}.
Definition gutenberg_16_3 : Milestone :=
  {| milestone_number := 96; title := "Gutenberg 16.3" |}.
Definition gutenberg_16_4 : Milestone :=
  {| milestone_number := 97; title := "Gutenberg 16.4" |}.
(** A second milestone with the title of [gutenberg_16_3]. *)
Definition gutenberg_16_3' : Milestone :=
  {| milestone_number := 98; title := "Gutenberg 16.3" |}.

Definition rc_16_3 : Release :=
  {| release_id := 3; name := Some "16.3.0-rc.1";
     published_at := Some "2023-07-12T15:00:00Z" |}.
Definition v16_2_0 : Release :=
  {| release_id := 2; name := Some "16.2.0";
     published_at := Some "2023-07-05T12:00:00Z" |}.
Definition rc_16_2 : Release :=
  {| release_id := 1; name := Some "16.2.0-rc.1";
     published_at := Some "2023-06-28T12:00:00Z" |}.
(** A draft: named, not published. *)
Definition draft_16_2 : Release :=
  {| release_id := 4; name := Some "16.2.1"; published_at := None |}.
(** A release without a name. *)
Definition unnamed : Release :=
  {| release_id := 5; name := None; published_at := None |}.

Definition closed_before : Issue :=
  {| issue_number := 101; closed_at := Some "2023-07-05T11:59:59Z" |}.
Definition closed_after : Issue :=
  {| issue_number := 102; closed_at := Some "2023-07-05T12:00:01Z" |}.
Definition closed_at_cutoff : Issue :=
  {| issue_number := 103; closed_at := Some "2023-07-05T12:00:00Z" |}.
Definition still_open : Issue :=
  {| issue_number := 104; closed_at := None |}.
Definition closed_later : Issue :=
  {| issue_number := 105; closed_at := Some "2023-07-09T08:30:00Z" |}.
Definition closed_long_before : Issue :=
  {| issue_number := 106; closed_at := Some "2023-06-01T00:00:00Z" |}.

Definition client (milestone : Exception + Milestone)
    (milestones : list (Exception + list Milestone))
    (releases : list (Exception + list Release))
    (issues : list (Exception + list Issue)) : Octokit :=
  {| issues_getMilestone := fun _ _ _ => milestone;
     issues_listMilestones := fun _ _ => milestones;
     repos_listReleases := fun _ _ => releases;
     issues_listForRepo := fun _ => issues |}.

Definition milestone_pages : list (list Milestone) :=
  [[gutenberg_16_4; gutenberg_16_3]; [gutenberg_16_2]].

Definition release_pages : list (list Release) :=
  [[rc_16_3; v16_2_0]; [rc_16_2]].

Definition issue_pages : list (list Issue) :=
  [[closed_before; closed_after]; [still_open; closed_at_cutoff];
   [closed_later; closed_long_before]].

(** The repository as the tooling meets it. *)
Definition repository : Octokit :=
  client (inr gutenberg_16_2) (map inr milestone_pages)
         (map inr release_pages) (map inr issue_pages).

(** The latest release of the series is a draft. *)
Definition repository_with_draft : Octokit :=
  client (inr gutenberg_16_2) (map inr milestone_pages)
         [inr [rc_16_3; draft_16_2]; inr [v16_2_0]]
         [inr [still_open; closed_after]].

(** No release of the series yet. *)
Definition repository_before_release : Octokit :=
  client (inr gutenberg_16_2) (map inr milestone_pages)
         [inr [rc_16_3]] (map inr issue_pages).

(** A release without a name comes before the releases of the series. *)
Definition repository_with_unnamed : Octokit :=
  client (inr gutenberg_16_2) (map inr milestone_pages)
         [inr [rc_16_3; unnamed; v16_2_0]] (map inr issue_pages).

(** Two milestones share a title. *)
Definition repository_with_twins : Octokit :=
  client (inr gutenberg_16_2)
         [inr [gutenberg_16_4; gutenberg_16_3]; inr [gutenberg_16_3']]
         (map inr release_pages) (map inr issue_pages).

(** The milestone does not exist. *)
Definition repository_without_milestone : Octokit :=
  client (inl (RequestError 404)) (map inr milestone_pages)
         (map inr release_pages) (map inr issue_pages).

(** The second page of issues fails to arrive. *)
Definition repository_failing_midway : Octokit :=
  client (inr gutenberg_16_2) (map inr milestone_pages)
         (map inr release_pages)
         [inr [closed_before; closed_after]; inl (RequestError 502);
          inr [closed_later]].

(** The repository has no milestone: one page, empty. *)
Definition repository_with_no_milestones : Octokit :=
  client (inl (RequestError 404)) [inr []]
         (map inr release_pages) (map inr issue_pages).

(** A release without a name comes after the first release of the series,
    on the same page. *)
Definition repository_with_unnamed_after : Octokit :=
  client (inr gutenberg_16_2) (map inr milestone_pages)
         [inr [rc_16_3; v16_2_0; unnamed]; inr [rc_16_2]]
         (map inr issue_pages).

(** A release of the series whose publish timestamp is no date. *)
Definition misdated : Release :=
  {| release_id := 6; name := Some "16.2.0";
     published_at := Some "last Wednesday" |}.

Definition repository_with_misdated : Octokit :=
  client (inr gutenberg_16_2) (map inr milestone_pages)
         [inr [rc_16_3; misdated]] (map inr issue_pages).

End Sample.

(** ** Facts on strings *)

Module JsStringFacts.

Import JsString.
Local Open Scope string_scope.

Lemma prefix_app (p s : string) : String.prefix p (p ++ s) = true.
Proof.
  induction p as [|c p IH]; simpl.
  - destruct s; reflexivity.
  - destruct (Ascii.ascii_dec c c) as [_|n]; [exact IH | now elim n].
Qed.

Lemma prefix_split (p s : string) :
  String.prefix p s = true -> s = p ++ slice (String.length p) s.
Proof.
  revert s; induction p as [|c p IH]; intros s H; simpl.
  - reflexivity.
  - destruct s as [|d s]; simpl in H; [discriminate|].
    destruct (Ascii.ascii_dec c d) as [->|]; [|discriminate].
    simpl. f_equal. now apply IH.
Qed.

Lemma slice_app (p s : string) : slice (String.length p) (p ++ s) = s.
Proof. induction p as [|c p IH]; simpl; [reflexivity | exact IH]. Qed.

Lemma prefix_occurs (p s : string) :
  String.prefix p s = true -> occurs_at p "" s.
Proof.
  intros H. exists (slice (String.length p) s). simpl. now apply prefix_split.
Qed.

Lemma length_app (a b : string) :
  String.length (a ++ b) = String.length a + String.length b.
Proof. induction a as [|x a IH]; simpl; [reflexivity | now rewrite IH]. Qed.

Lemma replace_hit (p r s : string) :
  String.prefix p s = true ->
  replace p r s = r ++ slice (String.length p) s.
Proof. intros H. destruct s; cbn [replace]; now rewrite H. Qed.

Lemma replace_miss (p r : string) (c : ascii) (s : string) :
  String.prefix p (String c s) = false ->
  replace p r (String c s) = String c (replace p r s).
Proof. intros H. cbn [replace]. now rewrite H. Qed.

(** Without an occurrence, [replace] is the identity. *)
Lemma replace_absent (p r s : string) :
  ~ occurs p s -> replace p r s = s.
Proof.
  induction s as [|c s IH]; intros Hno.
  - destruct (String.prefix p "") eqn:E.
    + elim Hno. exists "". now apply prefix_occurs.
    + cbn [replace]. now rewrite E.
  - destruct (String.prefix p (String c s)) eqn:E.
    + elim Hno. exists "". now apply prefix_occurs.
    + rewrite replace_miss by assumption.
      f_equal. apply IH. intros [b [rest Hb]]. apply Hno.
      exists (String c b), rest. simpl. now rewrite Hb.
Qed.

(** [replace] removes the leftmost occurrence and nothing else. *)
Lemma replace_leftmost (p r before rest : string) :
  (forall before', occurs_at p before' (before ++ p ++ rest) ->
                   String.length before <= String.length before') ->
  replace p r (before ++ p ++ rest) = before ++ r ++ rest.
Proof.
  induction before as [|c b IH]; intros Hmin.
  - cbn [append].
    rewrite replace_hit by apply prefix_app. now rewrite slice_app.
  - cbn [append].
    destruct (String.prefix p (String c (b ++ p ++ rest))) eqn:E.
    + apply prefix_occurs in E. apply Hmin in E. simpl in E. lia.
    + rewrite replace_miss by assumption.
      f_equal. apply IH. intros b' [rest' Hb'].
      assert (H : occurs_at p (String c b') (String c b ++ p ++ rest)).
      { exists rest'. simpl. now rewrite Hb'. }
      apply Hmin in H. simpl in H. lia.
Qed.

End JsStringFacts.

(** ** Facts on the monad *)

Lemma bind_inr {A B} (m : Async A) (k : A -> Async B) log a log' :
  m log = (inr a, log') -> bind m k log = k a log'.
Proof. intros H. unfold bind. now rewrite H. Qed.

Lemma bind_inl {A B} (m : Async A) (k : A -> Async B) log e log' :
  m log = (inl e, log') -> bind m k log = (inl e, log').
Proof. intros H. unfold bind. now rewrite H. Qed.

Lemma bind_await_inr {A B} request (a : A) (k : A -> Async B) log :
  bind (await request (inr a)) k log = k a (log ++ [(request, None)]).
Proof. reflexivity. Qed.

Lemma bind_await_inl {A B} request e (k : A -> Async B) log :
  bind (await request (inl e)) k log = (inl e, log ++ [(request, Some e)]).
Proof. reflexivity. Qed.

Lemma bind_lift_inr {A B} (a : A) (k : A -> Async B) log :
  bind (lift (inr a)) k log = k a log.
Proof. reflexivity. Qed.

Lemma bind_lift_inl {A B} e (k : A -> Async B) log :
  bind (lift (inl e)) k log = (inl e, log).
Proof. reflexivity. Qed.

Lemma failures_app (l1 l2 : Log) :
  failures (l1 ++ l2) = failures l1 ++ failures l2.
Proof. unfold failures. apply flat_map_app. Qed.

Lemma failures_In (log : Log) request e :
  In (request, Some e) log -> In e (failures log).
Proof.
  intros H. unfold failures. apply in_flat_map.
  exists (request, Some e). split; [assumption | now left].
Qed.

Lemma page_events_S mk start n :
  page_events mk start (S n) = (mk start, None) :: page_events mk (S start) n.
Proof. reflexivity. Qed.

Section HistoryFree.

Context {A B : Type}.

Lemma history_free_ret (a : A) : history_free (ret a).
Proof. intros log. unfold outcome, requests, run, ret. simpl. now rewrite app_nil_r. Qed.

Lemma history_free_throw (e : Exception) : history_free (@throw A e).
Proof. intros log. unfold outcome, requests, run, throw. simpl. now rewrite app_nil_r. Qed.

Lemma history_free_lift (r : Exception + A) : history_free (lift r).
Proof. destruct r; [apply history_free_throw | apply history_free_ret]. Qed.

Lemma history_free_await request (response : Exception + A) :
  history_free (await request response).
Proof. intros log. reflexivity. Qed.

Lemma history_free_bind (m : Async A) (k : A -> Async B) :
  history_free m -> (forall a, history_free (k a)) -> history_free (bind m k).
Proof.
  intros Hm Hk log. unfold outcome, requests, run, bind.
  rewrite (Hm log), (Hm []). unfold outcome, requests, run.
  destruct (m []) as [[e|a] l0]; simpl.
  - reflexivity.
  - rewrite (Hk a (log ++ l0)), (Hk a l0). simpl. now rewrite app_assoc.
Qed.

End HistoryFree.

Section StopsAtFailure.

Context {A B : Type}.

Lemma stops_ret (a : A) : stops_at_failure (ret a).
Proof. intros log. exists []. simpl. now rewrite app_nil_r. Qed.

Lemma stops_throw (e : Exception) : stops_at_failure (@throw A e).
Proof. intros log. exists []. simpl. rewrite app_nil_r. split; [reflexivity | now left]. Qed.

Lemma stops_lift (r : Exception + A) : stops_at_failure (lift r).
Proof. destruct r; [apply stops_throw | apply stops_ret]. Qed.

Lemma stops_await request (response : Exception + A) :
  stops_at_failure (await request response).
Proof.
  intros log. eexists. split; [reflexivity|].
  destruct response as [e|a]; simpl; [|reflexivity].
  right. exists [], request. split; reflexivity.
Qed.

Lemma stops_bind (m : Async A) (k : A -> Async B) :
  stops_at_failure m -> (forall a, stops_at_failure (k a)) ->
  stops_at_failure (bind m k).
Proof.
  intros Hm Hk log. unfold bind.
  destruct (Hm log) as [evs [Hlog Hout]].
  destruct (m log) as [[e|a] log1]; simpl in Hlog, Hout; subst log1.
  - exists evs. split; [reflexivity | exact Hout].
  - destruct (Hk a (log ++ evs)) as [evs2 [Hlog2 Hout2]].
    exists (evs ++ evs2). split; [now rewrite Hlog2, app_assoc|].
    destruct (fst (k a (log ++ evs))) as [e|b].
    + destruct Hout2 as [Hnone | [earlier [request [-> Hearlier]]]].
      * left. now rewrite failures_app, Hout, Hnone.
      * right. exists (evs ++ earlier), request.
        split; [now rewrite app_assoc|].
        now rewrite failures_app, Hout, Hearlier.
    + now rewrite failures_app, Hout, Hout2.
Qed.

End StopsAtFailure.

Create HintDb async.
#[local] Hint Resolve history_free_ret history_free_throw history_free_lift
  history_free_await history_free_bind : async.
#[local] Hint Resolve stops_ret stops_throw stops_lift stops_await stops_bind
  : async.

(** ** The loop of getMilestoneByTitle *)

Lemma for_of_milestones_first sought before milestone after :
  Forall (fun m => title m <> sought) before ->
  title milestone = sought ->
  for_of_milestones sought (before ++ milestone :: after) = Some milestone.
Proof.
  intros Hbefore Hm. induction Hbefore as [|x l Hx _ IH]; simpl.
  - now rewrite (proj2 (String.eqb_eq _ _) Hm).
  - now rewrite (proj2 (String.eqb_neq _ _) Hx).
Qed.

Lemma for_of_milestones_none sought milestones :
  Forall (fun m => title m <> sought) milestones ->
  for_of_milestones sought milestones = None.
Proof.
  intros H. induction H as [|x l Hx _ IH]; simpl; [reflexivity|].
  now rewrite (proj2 (String.eqb_neq _ _) Hx).
Qed.

Lemma for_await_milestones_none owner repo sought pages :
  Forall (fun m => title m <> sought) (concat pages) ->
  forall page log,
    for_await_milestones owner repo sought (map inr pages) page log =
    (inr None, log ++ page_events (ListMilestones owner repo) page (length pages)).
Proof.
  induction pages as [|p pages IH]; intros Hall page log.
  - simpl. unfold ret. now rewrite app_nil_r.
  - simpl in Hall. apply Forall_app in Hall. destruct Hall as [Hp Hrest].
    cbn [map for_await_milestones length].
    rewrite bind_await_inr.
    rewrite (for_of_milestones_none _ _ Hp), (IH Hrest).
    now rewrite page_events_S, <- app_assoc.
Qed.

Lemma for_await_milestones_first owner repo sought earlier before milestone
      after later :
  Forall (fun m => title m <> sought) (concat earlier ++ before) ->
  title milestone = sought ->
  forall page log,
    for_await_milestones owner repo sought
      (map inr earlier ++ inr (before ++ milestone :: after) :: later) page log =
    (inr (Some milestone),
     log ++ page_events (ListMilestones owner repo) page (S (length earlier))).
Proof.
  intros Hall Hm. induction earlier as [|p earlier IH]; intros page log.
  - cbn [map app for_await_milestones length]. simpl in Hall.
    rewrite bind_await_inr.
    now rewrite (for_of_milestones_first _ _ _ _ Hall Hm).
  - simpl in Hall. rewrite <- app_assoc in Hall.
    apply Forall_app in Hall. destruct Hall as [Hp Hrest].
    cbn [map app for_await_milestones length].
    rewrite bind_await_inr.
    rewrite (for_of_milestones_none _ _ Hp), (IH Hrest).
    now rewrite (page_events_S _ page), <- app_assoc.
Qed.

(** ** The loops of getIssuesByMilestone *)

Lemma find_release_first series before release after :
  Forall (fun r => out_of_series series r = true) before ->
  in_series series release = true ->
  find_release series (before ++ release :: after) = inr (Some release).
Proof.
  intros Hbefore Hr. induction Hbefore as [|x l Hx _ IH]; simpl.
  - unfold in_series in Hr. destruct (name release); [|discriminate].
    now rewrite Hr.
  - unfold out_of_series in Hx. destruct (name x); [|discriminate].
    apply negb_true_iff in Hx. now rewrite Hx.
Qed.

Lemma find_release_none series data :
  Forall (fun r => out_of_series series r = true) data ->
  find_release series data = inr None.
Proof.
  intros H. induction H as [|x l Hx _ IH]; simpl; [reflexivity|].
  unfold out_of_series in Hx. destruct (name x); [|discriminate].
  apply negb_true_iff in Hx. now rewrite Hx.
Qed.

Lemma find_release_null series before release after :
  Forall (fun r => out_of_series series r = true) before ->
  name release = None ->
  find_release series (before ++ release :: after) = inl TypeError.
Proof.
  intros Hbefore Hr. induction Hbefore as [|x l Hx _ IH]; simpl.
  - now rewrite Hr.
  - unfold out_of_series in Hx. destruct (name x); [|discriminate].
    apply negb_true_iff in Hx. now rewrite Hx.
Qed.

Lemma for_await_releases_none owner repo series pages :
  Forall (fun r => out_of_series series r = true) (concat pages) ->
  forall page log,
    for_await_releases owner repo series (map inr pages) page log =
    (inr None, log ++ page_events (ListReleases owner repo) page (length pages)).
Proof.
  induction pages as [|p pages IH]; intros Hall page log.
  - simpl. unfold ret. now rewrite app_nil_r.
  - simpl in Hall. apply Forall_app in Hall. destruct Hall as [Hp Hrest].
    cbn [map for_await_releases length].
    rewrite bind_await_inr.
    rewrite (find_release_none _ _ Hp). rewrite bind_lift_inr, (IH Hrest).
    now rewrite page_events_S, <- app_assoc.
Qed.

(** The scan up to a page whose [find] ends in [result], after pages that
    arrived and hold no release of the series. *)
Lemma for_await_releases_upto owner repo series earlier data later result :
  Forall (fun r => out_of_series series r = true) (concat earlier) ->
  find_release series data = result ->
  (result <> inr None) ->
  forall page log,
    for_await_releases owner repo series
      (map inr earlier ++ inr data :: later) page log =
    (match result with inr latest => inr latest | inl e => inl e end,
     log ++ page_events (ListReleases owner repo) page (S (length earlier))).
Proof.
  intros Hall Hfind Hres. induction earlier as [|p earlier IH]; intros page log.
  - cbn [map app for_await_releases length].
    rewrite bind_await_inr. rewrite Hfind.
    destruct result as [e|[release|]].
    + now rewrite bind_lift_inl.
    + now rewrite bind_lift_inr.
    + now elim Hres.
  - simpl in Hall. apply Forall_app in Hall. destruct Hall as [Hp Hrest].
    cbn [map app for_await_releases length].
    rewrite bind_await_inr.
    rewrite (find_release_none _ _ Hp). rewrite bind_lift_inr, (IH Hrest).
    now rewrite (page_events_S _ page), <- app_assoc.
Qed.

Lemma for_await_releases_selects owner repo series releases latest scanned :
  first_in_series series releases latest scanned ->
  forall page log,
    for_await_releases owner repo series releases page log =
    (inr latest, log ++ page_events (ListReleases owner repo) page scanned).
Proof.
  intros H page log. destruct latest as [release|]; cbn [first_in_series] in H.
  - destruct H as [earlier [before [after [later [-> [Hall [Hin ->]]]]]]].
    apply Forall_app in Hall. destruct Hall as [Hearlier Hbefore].
    apply (for_await_releases_upto owner repo series earlier _ later
             (inr (Some release))); [assumption | | discriminate].
    now apply find_release_first.
  - destruct H as [pages [-> [Hall ->]]]. now apply for_await_releases_none.
Qed.

Lemma for_await_releases_stops owner repo series releases page :
  stops_at_failure (for_await_releases owner repo series releases page).
Proof.
  revert page. induction releases as [|r rs IH]; intros page; simpl.
  - auto with async.
  - apply stops_bind; [auto with async|]. intros a.
    apply stops_bind; [auto with async|].
    intros [release|]; auto with async.
Qed.

Lemma for_await_issues_all options pages :
  forall page pulls log,
    for_await_issues options (map inr pages) page pulls log =
    (inr (pulls ++ concat pages),
     log ++ page_events (ListForRepo options) page (length pages)).
Proof.
  induction pages as [|p pages IH]; intros page pulls log.
  - simpl. unfold ret. now rewrite !app_nil_r.
  - cbn [map for_await_issues length concat].
    rewrite bind_await_inr, IH.
    now rewrite page_events_S, <- !app_assoc.
Qed.

Lemma for_await_issues_history_free options responses page pulls :
  history_free (for_await_issues options responses page pulls).
Proof.
  revert page pulls. induction responses as [|r rs IH]; intros page pulls; simpl;
    auto with async.
Qed.

Lemma for_await_issues_stops options responses page pulls :
  stops_at_failure (for_await_issues options responses page pulls).
Proof.
  revert page pulls. induction responses as [|r rs IH]; intros page pulls; simpl;
    auto with async.
Qed.

(** ** The whole of getIssuesByMilestone *)

Section CollectorFacts.

Variable new_Date : string -> option Z.

Lemma getIssuesByMilestone_stops octokit owner repo milestone state :
  stops_at_failure (getIssuesByMilestone new_Date octokit owner repo milestone state).
Proof.
  unfold getIssuesByMilestone.
  repeat (apply stops_bind; [|intros ?]);
    auto using for_await_releases_stops, for_await_issues_stops with async.
Qed.

(** Once the milestone has arrived and the scan of the releases has ended
    in [latest], the operation is the collection of the issues under the
    options built from [latest], followed by the filter. *)
Lemma getIssuesByMilestone_run octokit owner repo milestone state m latest scanned :
  issues_getMilestone octokit owner repo milestone = inr m ->
  first_in_series (series_of_title (title m))
                  (repos_listReleases octokit owner repo) latest scanned ->
  let options := listForRepo_options owner repo milestone state latest in
  let collect :=
    for_await_issues options (issues_listForRepo octokit options) 0 [] in
  run (getIssuesByMilestone new_Date octokit owner repo milestone state) =
  (match outcome collect with
   | inr pulls => inr (post_filter new_Date latest pulls)
   | inl e => inl e
   end,
   (GetMilestone owner repo milestone, None)
     :: page_events (ListReleases owner repo) 0 scanned ++ requests collect).
Proof.
  intros Hm Hscan options collect.
  unfold run, getIssuesByMilestone. rewrite Hm, bind_await_inr. cbv zeta.
  rewrite (bind_inr _ _ _ latest _
             (for_await_releases_selects owner repo _ _ _ _ Hscan 0 _)).
  fold options. unfold bind.
  rewrite (for_await_issues_history_free options _ 0 [] _). fold collect.
  destruct (outcome collect) as [e|pulls]; reflexivity.
Qed.

Lemma getIssuesByMilestone_all_pages octokit owner repo milestone state m latest
      scanned pages :
  issues_getMilestone octokit owner repo milestone = inr m ->
  first_in_series (series_of_title (title m))
                  (repos_listReleases octokit owner repo) latest scanned ->
  issues_listForRepo octokit
    (listForRepo_options owner repo milestone state latest) = map inr pages ->
  outcome (getIssuesByMilestone new_Date octokit owner repo milestone state) =
  inr (post_filter new_Date latest (concat pages)).
Proof.
  intros Hm Hscan Hpages. unfold outcome at 1.
  rewrite (getIssuesByMilestone_run _ _ _ _ state _ _ _ Hm Hscan).
  cbn [fst]. rewrite Hpages. unfold outcome, run.
  now rewrite for_await_issues_all.
Qed.

End CollectorFacts.

Lemma for_of_milestones_app sought l1 l2 :
  for_of_milestones sought (l1 ++ l2) =
  match for_of_milestones sought l1 with
  | Some m => Some m
  | None => for_of_milestones sought l2
  end.
Proof.
  induction l1 as [|x l1 IH]; simpl; [reflexivity|].
  destruct (String.eqb (title x) sought); [reflexivity | exact IH].
Qed.

Lemma for_await_milestones_all owner repo sought pages :
  forall page log,
    fst (for_await_milestones owner repo sought (map inr pages) page log) =
    inr (for_of_milestones sought (concat pages)).
Proof.
  induction pages as [|p pages IH]; intros page log; [reflexivity|].
  cbn [map for_await_milestones concat].
  rewrite bind_await_inr, for_of_milestones_app.
  destruct (for_of_milestones sought p); [reflexivity | apply IH].
Qed.

Lemma for_of_milestones_unique milestones m :
  NoDup (map title milestones) -> In m milestones ->
  for_of_milestones (title m) milestones = Some m.
Proof.
  induction milestones as [|x l IH]; intros Hnodup Hin; [contradiction|].
  simpl in Hnodup. inversion Hnodup as [|t ts Hx Hl]; subst.
  simpl. destruct (String.eqb_spec (title x) (title m)) as [Heq|Hneq].
  - destruct Hin as [->|Hin]; [reflexivity|].
    elim Hx. rewrite Heq. now apply in_map.
  - destruct Hin as [->|Hin]; [now elim Hneq | now apply IH].
Qed.

Lemma for_await_milestones_stops owner repo sought responses page :
  stops_at_failure (for_await_milestones owner repo sought responses page).
Proof.
  revert page. induction responses as [|r rs IH]; intros page; simpl.
  - auto with async.
  - apply stops_bind; [auto with async|].
    intros a. destruct (for_of_milestones sought a); auto with async.
Qed.

Lemma for_await_issues_requests options responses :
  forall page pulls ev,
    In ev (requests (for_await_issues options responses page pulls)) ->
    exists page' failure, ev = (ListForRepo options page', failure).
Proof.
  induction responses as [|r rs IH]; intros page pulls ev; [intros []|].
  unfold requests, run. cbn [for_await_issues].
  destruct r as [e|issues].
  - rewrite bind_await_inl. simpl. intros [<-|[]]. eauto.
  - rewrite bind_await_inr, for_await_issues_history_free. simpl.
    intros [<-|Hin]; [eauto | now apply IH in Hin].
Qed.

(** A failed request is the last request of a computation that stops at
    failures, and its error is what the computation throws. *)
Lemma stops_at_failure_last {A} (m : Async A) request e :
  stops_at_failure m ->
  In (request, Some e) (requests m) ->
  outcome m = inl e /\
  exists earlier,
    requests m = earlier ++ [(request, Some e)] /\ failures earlier = [].
Proof.
  intros Hm Hin. unfold outcome, requests, run in *.
  destruct (Hm []) as [evs [Hlog Hout]]. simpl in Hlog.
  rewrite Hlog in *.
  assert (Hfail : In e (failures evs)) by (eapply failures_In; eassumption).
  destruct (fst (m [])) as [e0|a].
  - destruct Hout as [Hnone | [earlier [request0 [-> Hearlier]]]].
    + rewrite Hnone in Hfail. contradiction.
    + apply in_app_or in Hin. destruct Hin as [Hin|[Heq|[]]].
      * apply failures_In in Hin. rewrite Hearlier in Hin. contradiction.
      * injection Heq as -> ->. split; [reflexivity|]. now exists earlier.
  - rewrite Hout in Hfail. contradiction.
Qed.

Lemma closed_after_release_spec new_Date p pull :
  new_Date "" = None ->
  closed_after_release new_Date (new_Date p) pull =
  closed_strictly_after new_Date p pull.
Proof.
  intros Hempty. unfold closed_after_release, closed_strictly_after.
  destruct (closed_at pull) as [[|c s]|]; [|reflexivity|reflexivity].
  rewrite Hempty. now destruct (new_Date p).
Qed.

(** * The properties *)

(** ** Series derivation *)

(** C3 (as amended): the series is the title with the first occurrence of
    ["Gutenberg "] removed.  A title ["Gutenberg " ++ s] gives [s], so
    ["Gutenberg 16.2"] gives ["16.2"]; a title in which ["Gutenberg "] occurs
    nowhere is its own series; a title in which it first occurs after
    [before] loses that occurrence. *)
Theorem series_of_title_removes_first_occurrence (s t before rest : string) :
  ~ JsString.occurs "Gutenberg " t ->
  (forall before',
      JsString.occurs_at "Gutenberg " before' (before ++ "Gutenberg " ++ rest) ->
      String.length before <= String.length before') ->
  series_of_title ("Gutenberg " ++ s) = s /\
  series_of_title "Gutenberg 16.2" = "16.2" /\
  series_of_title t = t /\
  series_of_title (before ++ "Gutenberg " ++ rest) = (before ++ rest)%string.
Proof.
  intros Habsent Hfirst. unfold series_of_title. repeat split.
  - rewrite JsStringFacts.replace_hit by apply JsStringFacts.prefix_app.
    apply JsStringFacts.slice_app.
  - now apply JsStringFacts.replace_absent.
  - now rewrite JsStringFacts.replace_leftmost.
Qed.

(** C3, as stated, fails: ["Gutenberg "] is not a leading prefix of
    ["WP Gutenberg 16.2"], and yet the series is not the title. *)
Lemma series_of_title_not_only_prefix :
  String.prefix "Gutenberg " "WP Gutenberg 16.2" = false /\
  series_of_title "WP Gutenberg 16.2" = "WP 16.2" /\
  series_of_title "WP Gutenberg 16.2" <> "WP Gutenberg 16.2".
Proof. repeat split. discriminate. Qed.

(** ** Milestone lookup *)

(** C2: when the pages of milestones all arrive, looking up a title of no
    page returns [undefined] after every page has been requested, whatever
    the pages hold and also when they hold nothing; and when moreover no two
    milestones share a title, looking up the title of a milestone of some
    page returns that very milestone. *)
Theorem getMilestoneByTitle_unique_titles octokit owner repo pages :
  issues_listMilestones octokit owner repo = map inr pages ->
  (NoDup (map title (concat pages)) ->
   forall m,
     In m (concat pages) ->
     outcome (getMilestoneByTitle octokit owner repo (title m)) =
       inr (Some m)) /\
  (forall absent,
      ~ In absent (map title (concat pages)) ->
      run (getMilestoneByTitle octokit owner repo absent) =
        (inr None, page_events (ListMilestones owner repo) 0 (length pages))).
Proof.
  intros Hpages.
  unfold outcome, run, getMilestoneByTitle. rewrite Hpages. split.
  - intros Hnodup m Hin. rewrite for_await_milestones_all. f_equal.
    now apply for_of_milestones_unique.
  - intros absent Habsent.
    apply for_await_milestones_none. apply Forall_forall.
    intros x Hx Heq. apply Habsent. rewrite <- Heq. now apply in_map.
Qed.

(** C8: when several milestones bear the sought title, the lookup returns
    the first of them in the order of the concatenated pages, after
    requesting the pages up to its own and no further; and the milestone
    returned is the same whatever was requested before the call. *)
Theorem getMilestoneByTitle_first_match octokit owner repo sought earlier
        before m after later :
  issues_listMilestones octokit owner repo =
    map inr earlier ++ inr (before ++ m :: after) :: later ->
  Forall (fun x => title x <> sought) (concat earlier ++ before) ->
  title m = sought ->
  run (getMilestoneByTitle octokit owner repo sought) =
    (inr (Some m),
     page_events (ListMilestones owner repo) 0 (S (length earlier))) /\
  forall log : Log,
    fst (getMilestoneByTitle octokit owner repo sought log) = inr (Some m).
Proof.
  intros Hpages Hbefore Hm. unfold run, getMilestoneByTitle. rewrite Hpages.
  split; [|intros log];
    now rewrite (for_await_milestones_first _ _ _ _ _ _ _ _ Hbefore Hm).
Qed.

(** ** Issue collection *)

(** C6: the pages of issues are accumulated by concatenation.  When the
    pages all arrive they are requested in order, once each, and the
    accumulated sequence is their concatenation; three pages of two issues
    give the six issues in order. *)
Theorem for_await_issues_concat options (pages : list (list Issue))
        (a b c d e f : Issue) :
  run (for_await_issues options (map inr pages) 0 []) =
    (inr (concat pages),
     page_events (ListForRepo options) 0 (length pages)) /\
  outcome (for_await_issues options
             [inr [a; b]; inr [c; d]; inr [e; f]] 0 []) =
    inr [a; b; c; d; e; f].
Proof.
  split; [|reflexivity].
  unfold run. now rewrite for_await_issues_all.
Qed.

Section CollectorProperties.

Variable new_Date : string -> option Z.

(** C5: the options of the issue requests.  After the milestone has
    arrived and the scan of the releases has ended in [latest], the issue
    pages requested are those of one options object; it carries the
    owner, the repository, the milestone ID and the state given; it has a
    [since] key exactly when a release was found, and then its value is
    the [published_at] of that release.  Every issue request of the
    operation carries these options. *)
Theorem getIssuesByMilestone_options octokit owner repo milestone state m
        latest scanned :
  issues_getMilestone octokit owner repo milestone = inr m ->
  first_in_series (series_of_title (title m))
                  (repos_listReleases octokit owner repo) latest scanned ->
  exists options,
    requests (getIssuesByMilestone new_Date octokit owner repo milestone state) =
      (GetMilestone owner repo milestone, None)
        :: page_events (ListReleases owner repo) 0 scanned
        ++ requests (for_await_issues options
                       (issues_listForRepo octokit options) 0 [])
    /\ options_owner options = owner
    /\ options_repo options = repo
    /\ options_milestone options = milestone
    /\ options_state options = state
    /\ (options_since options <> None <-> latest <> None)
    /\ (forall release,
           latest = Some release ->
           options_since options = Some (published_at release))
    /\ (forall options' page failure,
           In (ListForRepo options' page, failure)
              (requests (getIssuesByMilestone new_Date octokit owner repo
                           milestone state)) ->
           options' = options).
Proof.
  intros Hm Hscan.
  exists (listForRepo_options owner repo milestone state latest).
  assert (Hlog := getIssuesByMilestone_run new_Date _ _ _ _ state _ _ _ Hm Hscan).
  cbv zeta in Hlog. unfold requests at 1 3. rewrite Hlog. cbn [snd].
  repeat split.
  - destruct latest; simpl; congruence.
  - destruct latest; simpl; congruence.
  - intros release ->. reflexivity.
  - intros options' page failure [Heq|Hin]; [discriminate|].
    apply in_app_or in Hin. destruct Hin as [Hin|Hin].
    + unfold page_events in Hin. apply in_map_iff in Hin.
      destruct Hin as [n [Heq _]]. discriminate.
    + apply for_await_issues_requests in Hin.
      destruct Hin as [page' [failure' Heq]]. now injection Heq.
Qed.

(** C1 (as amended): when the milestone and the pages of issues arrive and
    the scan of the releases ends, the operation returns the accumulated
    issues filtered or whole.  If the scan found a release whose publish
    timestamp is a non-empty string [p], the result is exactly the
    subsequence of the issues whose closed-at timestamp is non-null and
    strictly later than [p]; if the release found has no publish
    timestamp, or the scan found no release, the result is the whole
    accumulated sequence. *)
Theorem getIssuesByMilestone_closed_after_release octokit owner repo
        milestone state m latest scanned pages :
  new_Date "" = None ->
  issues_getMilestone octokit owner repo milestone = inr m ->
  first_in_series (series_of_title (title m))
                  (repos_listReleases octokit owner repo) latest scanned ->
  issues_listForRepo octokit
    (listForRepo_options owner repo milestone state latest) = map inr pages ->
  outcome (getIssuesByMilestone new_Date octokit owner repo milestone state) =
  inr match latest with
      | Some release =>
          match published_at release with
          | Some p =>
              if String.eqb p "" then concat pages
              else filter (closed_strictly_after new_Date p) (concat pages)
          | None => concat pages
          end
      | None => concat pages
      end.
Proof.
  intros Hempty Hm Hscan Hpages.
  rewrite (getIssuesByMilestone_all_pages new_Date _ _ _ _ _ _ _ _ _
             Hm Hscan Hpages).
  f_equal. destruct latest as [release|]; [|reflexivity].
  unfold post_filter. destruct (published_at release) as [[|c p]|];
    [reflexivity | | reflexivity].
  cbn [String.eqb]. apply filter_ext. intros pull.
  now apply closed_after_release_spec.
Qed.

(** C9: when the release found by the scan has a null publish timestamp,
    the operation returns the whole accumulated sequence of issues: the
    filter is not applied although a release matched. *)
Theorem getIssuesByMilestone_unpublished_release octokit owner repo
        milestone state m release scanned pages :
  issues_getMilestone octokit owner repo milestone = inr m ->
  first_in_series (series_of_title (title m))
                  (repos_listReleases octokit owner repo)
                  (Some release) scanned ->
  published_at release = None ->
  issues_listForRepo octokit
    (listForRepo_options owner repo milestone state (Some release)) =
    map inr pages ->
  outcome (getIssuesByMilestone new_Date octokit owner repo milestone state) =
  inr (concat pages).
Proof.
  intros Hm Hscan Hnull Hpages.
  rewrite (getIssuesByMilestone_all_pages new_Date _ _ _ _ _ _ _ _ _
             Hm Hscan Hpages).
  unfold post_filter. now rewrite Hnull.
Qed.

(** C10 (as amended): the scan reads [startsWith] off the name of every
    release of a scanned page up to and including the first release of the
    series, and of no release after it.  On a page reached after pages that
    hold only named releases out of the series, take a release that follows
    only such releases.  If it has a null name, the operation throws a
    [TypeError] on that page and no issue is requested.  If it is of the
    series, the scan ends in it, whatever follows it on the page and on
    later pages, a release with a null name included. *)
Theorem getIssuesByMilestone_null_name octokit owner repo milestone state m
        earlier before release after later :
  issues_getMilestone octokit owner repo milestone = inr m ->
  repos_listReleases octokit owner repo =
    map inr earlier ++ inr (before ++ release :: after) :: later ->
  Forall (fun r => out_of_series (series_of_title (title m)) r = true)
         (concat earlier ++ before) ->
  (name release = None ->
   run (getIssuesByMilestone new_Date octokit owner repo milestone state) =
   (inl TypeError,
    (GetMilestone owner repo milestone, None)
      :: page_events (ListReleases owner repo) 0 (S (length earlier)))) /\
  (in_series (series_of_title (title m)) release = true ->
   run (for_await_releases owner repo (series_of_title (title m))
          (repos_listReleases octokit owner repo) 0) =
   (inr (Some release),
    page_events (ListReleases owner repo) 0 (S (length earlier)))).
Proof.
  intros Hm Hpages Hall. split.
  - intros Hnull.
    apply Forall_app in Hall. destruct Hall as [Hearlier Hbefore].
    unfold run, getIssuesByMilestone. rewrite Hm, bind_await_inr, Hpages.
    cbv zeta.
    now rewrite (bind_inl _ _ _ TypeError _
                   (for_await_releases_upto owner repo _ earlier _ later
                      (inl TypeError) Hearlier
                      (find_release_null _ _ _ _ Hbefore Hnull)
                      ltac:(discriminate) 0 _)).
  - intros Hin. unfold run. rewrite Hpages.
    apply Forall_app in Hall. destruct Hall as [Hearlier Hbefore].
    now rewrite (for_await_releases_upto owner repo _ earlier _ later
                   (inr (Some release)) Hearlier
                   (find_release_first _ _ _ _ Hbefore Hin)
                   ltac:(discriminate) 0 []).
Qed.

End CollectorProperties.

(** ** Errors of the client *)

(** C7: errors of the client are not caught.  If the request for the
    milestone fails, [getIssuesByMilestone] throws its error and has sent no
    other request.  In general a request that fails is the last request the
    operation sends, and the error of that request is what the operation
    throws, in place of any result; the same holds of
    [getMilestoneByTitle]. *)
Theorem client_errors_propagate new_Date octokit owner repo milestone state
        sought :
  (forall e,
      issues_getMilestone octokit owner repo milestone = inl e ->
      run (getIssuesByMilestone new_Date octokit owner repo milestone state) =
      (inl e, [(GetMilestone owner repo milestone, Some e)])) /\
  (forall request e,
      In (request, Some e)
         (requests (getIssuesByMilestone new_Date octokit owner repo
                      milestone state)) ->
      outcome (getIssuesByMilestone new_Date octokit owner repo milestone state) =
        inl e /\
      exists earlier,
        requests (getIssuesByMilestone new_Date octokit owner repo
                    milestone state) = earlier ++ [(request, Some e)] /\
        failures earlier = []) /\
  (forall request e,
      In (request, Some e)
         (requests (getMilestoneByTitle octokit owner repo sought)) ->
      outcome (getMilestoneByTitle octokit owner repo sought) = inl e /\
      exists earlier,
        requests (getMilestoneByTitle octokit owner repo sought) =
          earlier ++ [(request, Some e)] /\
        failures earlier = []).
Proof.
  split; [|split].
  - intros e He. unfold run, getIssuesByMilestone.
    now rewrite He, bind_await_inl.
  - intros request e. apply stops_at_failure_last.
    apply getIssuesByMilestone_stops.
  - intros request e. apply stops_at_failure_last.
    apply for_await_milestones_stops.
Qed.

(** ** The scan of the releases on a release without a name *)

(** C4, on a page where a release without a name comes before the first
    release of the series: [v16_2_0] is the first release whose name starts
    with ["16.2"], and the scan throws a [TypeError] instead of selecting
    it. *)
Theorem for_await_releases_unnamed_before_match :
  repos_listReleases Sample.repository_with_unnamed "WordPress" "gutenberg" =
    [inr [Sample.rc_16_3; Sample.unnamed; Sample.v16_2_0]] /\
  series_of_title (title Sample.gutenberg_16_2) = "16.2" /\
  find (in_series "16.2") [Sample.rc_16_3; Sample.unnamed; Sample.v16_2_0] =
    Some Sample.v16_2_0 /\
  run (for_await_releases "WordPress" "gutenberg" "16.2"
         (repos_listReleases Sample.repository_with_unnamed
            "WordPress" "gutenberg") 0) =
    (inl TypeError, [(ListReleases "WordPress" "gutenberg" 0, None)]) /\
  outcome (getIssuesByMilestone Iso8601.parse Sample.repository_with_unnamed
             "WordPress" "gutenberg" 95 None) = inl TypeError.
Proof. repeat split. Qed.

(** * The properties on the sample data *)

Module Runs.

Import Sample.

Lemma scan_finds_v16_2_0 :
  first_in_series "16.2" (map inr release_pages) (Some v16_2_0) 1.
Proof.
  exists [], [rc_16_3], [], [inr [rc_16_2]].
  repeat split. repeat constructor.
Defined.

Lemma scan_finds_draft :
  first_in_series "16.2" [inr [rc_16_3; draft_16_2]; inr [v16_2_0]]
                  (Some draft_16_2) 1.
Proof.
  exists [], [rc_16_3], [], [inr [v16_2_0]].
  repeat split. repeat constructor.
Defined.

Lemma series_of_title_removes_first_occurrence_witness :
  series_of_title "Gutenberg 16.2" = "16.2" /\
  series_of_title "Release 16.2" = "Release 16.2" /\
  series_of_title "WP Gutenberg 16.2" = "WP 16.2".
Proof.
  assert (Habsent : ~ JsString.occurs "Gutenberg " "Release 16.2").
  { intros [[|c1 [|c2 [|c3 b]]] [rest H]]; simpl in H; try discriminate H.
    apply (f_equal String.length) in H. simpl in H.
    rewrite JsStringFacts.length_app in H. simpl in H. lia. }
  assert (Hfirst : forall before',
             JsString.occurs_at "Gutenberg " before'
               ("WP " ++ "Gutenberg " ++ "16.2") ->
             String.length "WP " <= String.length before').
  { intros [|c1 [|c2 [|c3 b]]] [rest H]; simpl in *;
      try discriminate H; lia. }
  destruct (series_of_title_removes_first_occurrence
              "16.2" "Release 16.2" "WP " "16.2" Habsent Hfirst)
    as [_ [H1 [H2 H3]]].
  exact (conj H1 (conj H2 H3)).
Defined.

Lemma getMilestoneByTitle_unique_titles_witness :
(outcome (getMilestoneByTitle repository owner repo "Gutenberg 16.3") =
   inr (Some gutenberg_16_3) /\
 run (getMilestoneByTitle repository owner repo "Gutenberg 17.0") =
   (inr None,
    [(ListMilestones owner repo 0, None); (ListMilestones owner repo 1, None)])) /\
run (getMilestoneByTitle repository_with_no_milestones owner repo
       "Gutenberg 16.2") =
  (inr None, [(ListMilestones owner repo 0, None)]).
Proof.
split; [split|].
- apply (proj1 (getMilestoneByTitle_unique_titles repository owner repo
                  milestone_pages eq_refl)
           ltac:(simpl; repeat constructor; simpl; intuition discriminate)
           gutenberg_16_3).
  simpl. auto.
- apply (proj2 (getMilestoneByTitle_unique_titles repository owner repo
                  milestone_pages eq_refl) "Gutenberg 17.0").
  simpl. intuition discriminate.
- apply (proj2 (getMilestoneByTitle_unique_titles
                  repository_with_no_milestones owner repo [[]] eq_refl)
           "Gutenberg 16.2").
  simpl. tauto.
Defined.

Lemma getMilestoneByTitle_first_match_witness :
  run (getMilestoneByTitle repository_with_twins owner repo "Gutenberg 16.3") =
    (inr (Some gutenberg_16_3), [(ListMilestones owner repo 0, None)]) /\
  forall log : Log,
    fst (getMilestoneByTitle repository_with_twins owner repo
           "Gutenberg 16.3" log) = inr (Some gutenberg_16_3).
Proof.
  apply (getMilestoneByTitle_first_match repository_with_twins owner repo
           "Gutenberg 16.3" [] [gutenberg_16_4] gutenberg_16_3 []
           [inr [gutenberg_16_3']]).
  - reflexivity.
  - repeat constructor. discriminate.
  - reflexivity.
Defined.

Lemma getIssuesByMilestone_options_witness :
  exists options,
    requests (getIssuesByMilestone Iso8601.parse repository owner repo 95
                (Some closed)) =
      (GetMilestone owner repo 95, None)
        :: page_events (ListReleases owner repo) 0 1
        ++ requests (for_await_issues options
                       (issues_listForRepo repository options) 0 [])
    /\ options_owner options = owner
    /\ options_repo options = repo
    /\ options_milestone options = 95%Z
    /\ options_state options = Some closed
    /\ (options_since options <> None <-> Some v16_2_0 <> None)
    /\ (forall release,
           Some v16_2_0 = Some release ->
           options_since options = Some (published_at release))
    /\ (forall options' page failure,
           In (ListForRepo options' page, failure)
              (requests (getIssuesByMilestone Iso8601.parse repository
                           owner repo 95 (Some closed))) ->
           options' = options).
Proof.
  exact (getIssuesByMilestone_options Iso8601.parse repository owner repo 95
           (Some closed) gutenberg_16_2 (Some v16_2_0) 1
           eq_refl scan_finds_v16_2_0).
Defined.

Lemma getIssuesByMilestone_closed_after_release_witness :
  outcome (getIssuesByMilestone Iso8601.parse repository owner repo 95
             (Some closed)) = inr [closed_after; closed_later].
Proof.
  exact (getIssuesByMilestone_closed_after_release Iso8601.parse repository
           owner repo 95 (Some closed) gutenberg_16_2 (Some v16_2_0) 1
           issue_pages eq_refl eq_refl scan_finds_v16_2_0 eq_refl).
Defined.

(** C1, as stated, fails: the scan finds the release [draft_16_2], whose
    name starts with the series, and the operation returns an issue whose
    closed-at timestamp is null. *)
Lemma getIssuesByMilestone_keeps_open_issue_after_draft :
  first_in_series (series_of_title (title gutenberg_16_2))
    (repos_listReleases repository_with_draft owner repo)
    (Some draft_16_2) 1 /\
  outcome (getIssuesByMilestone Iso8601.parse repository_with_draft
             owner repo 95 None) = inr [still_open; closed_after] /\
  closed_at still_open = None /\
  ~ (forall pulls,
        outcome (getIssuesByMilestone Iso8601.parse repository_with_draft
                   owner repo 95 None) = inr pulls ->
        forall pull, In pull pulls -> closed_at pull <> None).
Proof.
  split; [exact scan_finds_draft|].
  split; [reflexivity|]. split; [reflexivity|].
  intros H. apply (H [still_open; closed_after] eq_refl still_open).
  - now left.
  - reflexivity.
Qed.

Lemma getIssuesByMilestone_unpublished_release_witness :
  outcome (getIssuesByMilestone Iso8601.parse repository_with_draft
             owner repo 95 None) = inr [still_open; closed_after].
Proof.
  exact (getIssuesByMilestone_unpublished_release Iso8601.parse
           repository_with_draft owner repo 95 None gutenberg_16_2
           draft_16_2 1 [[still_open; closed_after]]
           eq_refl scan_finds_draft eq_refl eq_refl).
Defined.

Lemma getIssuesByMilestone_null_name_witness :
run (getIssuesByMilestone Iso8601.parse repository_with_unnamed
       owner repo 95 None) =
  (inl TypeError,
   [(GetMilestone owner repo 95, None); (ListReleases owner repo 0, None)]) /\
run (for_await_releases owner repo "16.2"
       (repos_listReleases repository_with_unnamed_after owner repo) 0) =
  (inr (Some v16_2_0), [(ListReleases owner repo 0, None)]).
Proof.
split.
- apply (proj1 (getIssuesByMilestone_null_name Iso8601.parse
                  repository_with_unnamed owner repo 95 None gutenberg_16_2
                  [] [rc_16_3] unnamed [v16_2_0] []
                  eq_refl eq_refl
                  ltac:(repeat constructor))).
  reflexivity.
- apply (proj2 (getIssuesByMilestone_null_name Iso8601.parse
                  repository_with_unnamed_after owner repo 95 None
                  gutenberg_16_2
                  [] [rc_16_3] v16_2_0 [unnamed] [inr [rc_16_2]]
                  eq_refl eq_refl
                  ltac:(repeat constructor))).
  reflexivity.
Defined.

(** C10, as stated, fails in its first clause: the page
    [[rc_16_3; v16_2_0; unnamed]] is scanned and holds a release with a null
    name, and yet that name is not read off: the scan ends in [v16_2_0] and
    the operation returns the issues closed after it, with no [TypeError]. *)
Lemma getIssuesByMilestone_null_name_not_read_after_match :
repos_listReleases repository_with_unnamed_after owner repo =
  [inr [rc_16_3; v16_2_0; unnamed]; inr [rc_16_2]] /\
name unnamed = None /\
find_release (series_of_title (title gutenberg_16_2))
  [rc_16_3; v16_2_0; unnamed] = inr (Some v16_2_0) /\
run (getIssuesByMilestone Iso8601.parse repository_with_unnamed_after
       owner repo 95 None) =
  (inr [closed_after; closed_later],
   (GetMilestone owner repo 95, None)
     :: (ListReleases owner repo 0, None)
     :: page_events
          (ListForRepo (listForRepo_options owner repo 95 None (Some v16_2_0)))
          0 3) /\
outcome (getIssuesByMilestone Iso8601.parse repository_with_unnamed_after
           owner repo 95 None) <> inl TypeError.
Proof. repeat split. discriminate. Qed.

Lemma client_errors_propagate_witness :
  run (getIssuesByMilestone Iso8601.parse repository_without_milestone
         owner repo 95 None) =
    (inl (RequestError 404),
     [(GetMilestone owner repo 95, Some (RequestError 404))]) /\
  outcome (getIssuesByMilestone Iso8601.parse repository_failing_midway
             owner repo 95 None) = inl (RequestError 502).
Proof.
  split.
  - apply (proj1 (client_errors_propagate Iso8601.parse
                    repository_without_milestone owner repo 95 None
                    "Gutenberg 16.2")).
    reflexivity.
  - apply (proj1 (proj2 (client_errors_propagate Iso8601.parse
                           repository_failing_midway owner repo 95 None
                           "Gutenberg 16.2"))
             (ListForRepo
                (listForRepo_options owner repo 95 None (Some v16_2_0)) 1)
             (RequestError 502)).
    simpl. auto.
Defined.

End Runs.

(** * Further properties of the module *)

(** ** The series and the match of a release name *)

Module JsStringCases.

Import JsString JsStringFacts.
Local Open Scope string_scope.

Lemma occurs_at_empty_prefix (p s : string) :
  occurs_at p "" s -> String.prefix p s = true.
Proof. intros [rest ->]. simpl. apply prefix_app. Qed.

Lemma length_slice (p s : string) :
  String.prefix p s = true ->
  String.length s = String.length p + String.length (slice (String.length p) s).
Proof.
  intros H. rewrite (prefix_split p s H) at 1. apply length_app.
Qed.

(** [replace] either finds no occurrence and changes nothing, or cuts the
    string at an occurrence and puts the replacement there. *)
Lemma replace_cases (p r s : string) :
  (~ occurs p s /\ replace p r s = s) \/
  (exists before rest,
      s = before ++ p ++ rest /\ replace p r s = before ++ r ++ rest).
Proof.
  induction s as [|c s IH].
  - destruct (String.prefix p "") eqn:E.
    + right. exists "", (slice (String.length p) "").
      split; [now apply prefix_split | now apply replace_hit].
    + left. split; [|cbn [replace]; now rewrite E].
      intros [[|d b] [rest H]]; [|discriminate H].
      rewrite occurs_at_empty_prefix in E; [discriminate | now exists rest].
  - destruct (String.prefix p (String c s)) eqn:E.
    + right. exists "", (slice (String.length p) (String c s)).
      split; [now apply prefix_split | now apply replace_hit].
    + rewrite replace_miss by assumption.
      destruct IH as [[Hno Hsame] | [before [rest [Hs Hr]]]].
      * left. split; [|now rewrite Hsame].
        intros [[|d b] [rest H]].
        -- rewrite occurs_at_empty_prefix in E; [discriminate | now exists rest].
        -- simpl in H. injection H as _ H. apply Hno. now exists b, rest.
      * right. exists (String c before), rest. simpl. now rewrite <- Hs, Hr.
Qed.

End JsStringCases.

(** The title keeps its text exactly when ["Gutenberg "] occurs nowhere in
    it.  Otherwise the series is the title cut at one occurrence of
    ["Gutenberg "], ten characters shorter; a second occurrence stays. *)
Theorem series_of_title_cases (t : string) :
  (series_of_title t = t <-> ~ JsString.occurs "Gutenberg " t) /\
  (~ JsString.occurs "Gutenberg " t \/
   exists before rest,
     t = (before ++ "Gutenberg " ++ rest)%string /\
     series_of_title t = (before ++ rest)%string /\
     String.length t = String.length (series_of_title t) + 10).
Proof.
  unfold series_of_title.
  destruct (JsStringCases.replace_cases "Gutenberg " "" t)
    as [[Hno Hsame] | [before [rest [Ht Hr]]]].
  - split; [tauto | now left].
  - assert (Hlen : String.length t =
                   String.length (JsString.replace "Gutenberg " "" t) + 10).
    { rewrite Hr. rewrite Ht at 1.
      rewrite !JsStringFacts.length_app. simpl. lia. }
    split.
    + split.
      * intros Heq. rewrite Heq in Hlen. lia.
      * intros Hno. elim Hno. now exists before, rest.
    + right. exists before, rest. repeat split; assumption.
Qed.

Lemma in_series_iff (series : string) (release : Release) :
  in_series series release = true <->
  exists rest, name release = Some (series ++ rest)%string.
Proof.
  unfold in_series, JsString.startsWith. split.
  - destruct (name release) as [n|]; [|discriminate].
    intros H. exists (JsString.slice (String.length series) n).
    f_equal. now apply JsStringFacts.prefix_split.
  - intros [rest ->]. apply JsStringFacts.prefix_app.
Qed.

(** ** What the lookup returns, read off the pages *)

Lemma for_of_milestones_Some_inv sought milestones m :
  for_of_milestones sought milestones = Some m ->
  exists before after,
    milestones = before ++ m :: after
    /\ Forall (fun x => title x <> sought) before
    /\ title m = sought.
Proof.
  induction milestones as [|x l IH]; simpl; [discriminate|].
  destruct (String.eqb_spec (title x) sought) as [Heq|Hneq].
  - intros [= <-]. exists [], l. repeat split; [constructor | assumption].
  - intros H. destruct (IH H) as [before [after [-> [Hall Hm]]]].
    exists (x :: before), after. repeat split; [now constructor | assumption].
Qed.

Lemma for_of_milestones_None_inv sought milestones :
  for_of_milestones sought milestones = None ->
  Forall (fun x => title x <> sought) milestones.
Proof.
  induction milestones as [|x l IH]; simpl; [constructor|].
  destruct (String.eqb_spec (title x) sought) as [Heq|Hneq]; [discriminate|].
  intros H. constructor; [assumption | now apply IH].
Qed.

Lemma for_await_milestones_fails owner repo sought earlier e later :
  Forall (fun x => title x <> sought) (concat earlier) ->
  forall page log,
    fst (for_await_milestones owner repo sought
           (map inr earlier ++ inl e :: later) page log) = inl e.
Proof.
  induction earlier as [|p earlier IH]; intros Hall page log.
  - reflexivity.
  - simpl in Hall. apply Forall_app in Hall. destruct Hall as [Hp Hrest].
    cbn [map app for_await_milestones].
    rewrite bind_await_inr, (for_of_milestones_none _ _ Hp). now apply IH.
Qed.

Lemma lookup_result_cons sought p rest result :
  Forall (fun x => title x <> sought) p ->
  lookup_result sought rest result ->
  lookup_result sought (inr p :: rest) result.
Proof.
  intros Hp. destruct result as [e|[m|]]; cbn [lookup_result].
  - intros [earlier [later [-> Hall]]]. exists (p :: earlier), later.
    split; [reflexivity|]. simpl. now apply Forall_app.
  - intros [earlier [before [after [later [-> [Hall Hm]]]]]].
    exists (p :: earlier), before, after, later.
    repeat split; [|assumption]. simpl. rewrite <- app_assoc.
    now apply Forall_app.
  - intros [pages [-> Hall]]. exists (p :: pages).
    split; [reflexivity|]. simpl. now apply Forall_app.
Qed.

Lemma for_await_milestones_inv owner repo sought responses :
  forall page log,
    lookup_result sought responses
      (fst (for_await_milestones owner repo sought responses page log)).
Proof.
  induction responses as [|r rs IH]; intros page log.
  - exists []. split; [reflexivity | constructor].
  - cbn [for_await_milestones]. destruct r as [e|p].
    + rewrite bind_await_inl. exists [], rs. split; [reflexivity | constructor].
    + rewrite bind_await_inr.
      destruct (for_of_milestones sought p) as [m|] eqn:E.
      * apply for_of_milestones_Some_inv in E.
        destruct E as [before [after [-> [Hall Hm]]]].
        exists [], before, after, rs. repeat split; assumption.
      * apply lookup_result_cons; [now apply for_of_milestones_None_inv | apply IH].
Qed.

(** The outcome of [getMilestoneByTitle] is decided by the pages as
    [lookup_result] reads them, and by nothing else: it returns a milestone
    exactly when that milestone is the first with the title and the pages up
    to its own arrived; it returns [undefined] exactly when every page
    arrived and none holds the title; it throws [e] exactly when the first
    page that fails, fails with [e], and no page before it holds the
    title. *)
Theorem getMilestoneByTitle_outcome_iff octokit owner repo sought result :
  outcome (getMilestoneByTitle octokit owner repo sought) = result <->
  lookup_result sought (issues_listMilestones octokit owner repo) result.
Proof.
  unfold outcome, run, getMilestoneByTitle. split.
  - intros <-. apply for_await_milestones_inv.
  - destruct result as [e|[m|]]; cbn [lookup_result].
    + intros [earlier [later [-> Hall]]]. now apply for_await_milestones_fails.
    + intros [earlier [before [after [later [-> [Hall Hm]]]]]].
      now rewrite (for_await_milestones_first _ _ _ _ _ _ _ _ Hall Hm).
    + intros [pages [-> Hall]]. now rewrite for_await_milestones_none.
Qed.

(** ** What the scan of the releases returns, read off the pages *)

Lemma find_release_Some_inv series data release :
  find_release series data = inr (Some release) ->
  exists before after,
    data = before ++ release :: after
    /\ Forall (fun r => out_of_series series r = true) before
    /\ in_series series release = true.
Proof.
  induction data as [|x l IH]; simpl; [discriminate|].
  destruct (name x) as [n|] eqn:En; [|discriminate].
  destruct (JsString.startsWith n series) eqn:Es.
  - intros [= <-]. exists [], l. repeat split; [constructor|].
    unfold in_series. now rewrite En.
  - intros H. destruct (IH H) as [before [after [-> [Hall Hin]]]].
    exists (x :: before), after. repeat split; [|assumption].
    constructor; [|assumption]. unfold out_of_series. now rewrite En, Es.
Qed.

Lemma find_release_None_inv series data :
  find_release series data = inr None ->
  Forall (fun r => out_of_series series r = true) data.
Proof.
  induction data as [|x l IH]; simpl; [constructor|].
  destruct (name x) as [n|] eqn:En; [|discriminate].
  destruct (JsString.startsWith n series) eqn:Es; [discriminate|].
  intros H. constructor; [|now apply IH].
  unfold out_of_series. now rewrite En, Es.
Qed.

Lemma find_release_throw_inv series data e :
  find_release series data = inl e ->
  e = TypeError /\
  exists before release after,
    data = before ++ release :: after
    /\ Forall (fun r => out_of_series series r = true) before
    /\ name release = None.
Proof.
  induction data as [|x l IH]; simpl; [discriminate|].
  destruct (name x) as [n|] eqn:En.
  - destruct (JsString.startsWith n series) eqn:Es; [discriminate|].
    intros H. destruct (IH H) as [-> [before [release [after [-> [Hall Hn]]]]]].
    split; [reflexivity|]. exists (x :: before), release, after.
    repeat split; [|assumption].
    constructor; [|assumption]. unfold out_of_series. now rewrite En, Es.
  - intros [= <-]. split; [reflexivity|]. exists [], x, l.
    repeat split; [constructor | assumption].
Qed.

(** The callback of [find] matches by prefix: the release at the head of a
    page is the one found exactly when it has a name and the name is the
    series followed by any text, none included.  So the series ["16.2"]
    finds a release named ["16.20.0"], and the empty series finds any
    release that has a name. *)
Theorem find_release_head_iff (series : string) (release : Release)
        (after : list Release) :
  find_release series (release :: after) = inr (Some release) <->
  exists rest, name release = Some (series ++ rest)%string.
Proof.
  rewrite <- in_series_iff. split.
  - intros H. apply find_release_Some_inv in H.
    destruct H as [before [rest [_ [_ Hin]]]]. exact Hin.
  - intros H. now apply (find_release_first series [] release after).
Qed.

Lemma for_await_releases_fails owner repo series earlier e later :
  Forall (fun r => out_of_series series r = true) (concat earlier) ->
  forall page log,
    fst (for_await_releases owner repo series
           (map inr earlier ++ inl e :: later) page log) = inl e.
Proof.
  induction earlier as [|p earlier IH]; intros Hall page log.
  - reflexivity.
  - simpl in Hall. apply Forall_app in Hall. destruct Hall as [Hp Hrest].
    cbn [map app for_await_releases].
    rewrite bind_await_inr, (find_release_none _ _ Hp), bind_lift_inr.
    now apply IH.
Qed.

Lemma scan_result_cons series p rest result :
  Forall (fun r => out_of_series series r = true) p ->
  scan_result series rest result ->
  scan_result series (inr p :: rest) result.
Proof.
  intros Hp. destruct result as [e|[release|]];
    cbn [scan_result first_in_series]; unfold scan_throws.
  - intros [earlier [later [Hall Hcase]]]. exists (p :: earlier), later.
    split; [simpl; now apply Forall_app|].
    destruct Hcase as [-> | [before [release [after [-> [-> [Hb Hn]]]]]]].
    + now left.
    + right. exists before, release, after. repeat split; assumption.
  - intros [scanned [earlier [before [after [later [-> [Hall [Hin ->]]]]]]]].
    exists (S (S (length earlier))), (p :: earlier), before, after, later.
    repeat split; [|assumption]. simpl. rewrite <- app_assoc.
    now apply Forall_app.
  - intros [scanned [pages [-> [Hall ->]]]].
    exists (S (length pages)), (p :: pages).
    repeat split. simpl. now apply Forall_app.
Qed.

Lemma for_await_releases_inv owner repo series releases :
  forall page log,
    scan_result series releases
      (fst (for_await_releases owner repo series releases page log)).
Proof.
  induction releases as [|r rs IH]; intros page log.
  - exists 0, []. repeat split. constructor.
  - cbn [for_await_releases]. destruct r as [e|p].
    + rewrite bind_await_inl. exists [], rs. split; [constructor | now left].
    + rewrite bind_await_inr.
      destruct (find_release series p) as [e|[release|]] eqn:E.
      * rewrite bind_lift_inl. apply find_release_throw_inv in E.
        destruct E as [-> [before [release [after [-> [Hall Hn]]]]]].
        exists [], rs. split; [constructor|]. right.
        exists before, release, after. repeat split; assumption.
      * rewrite bind_lift_inr. apply find_release_Some_inv in E.
        destruct E as [before [after [-> [Hall Hin]]]].
        exists 1, [], before, after, rs. repeat split; assumption.
      * rewrite bind_lift_inr.
        apply scan_result_cons; [now apply find_release_None_inv | apply IH].
Qed.

Lemma for_await_releases_outcome owner repo series releases result :
  scan_result series releases result ->
  forall page log,
    fst (for_await_releases owner repo series releases page log) = result.
Proof.
  intros H page log. destruct result as [e|latest]; cbn [scan_result] in H.
  - destruct H as [earlier [later [Hall Hcase]]].
    destruct Hcase as [-> | [before [release [after [-> [-> [Hb Hn]]]]]]].
    + now apply for_await_releases_fails.
    + now rewrite (for_await_releases_upto owner repo series earlier _ later
                     (inl TypeError) Hall
                     (find_release_null _ _ _ _ Hb Hn) ltac:(discriminate)).
  - destruct H as [scanned H].
    now rewrite (for_await_releases_selects _ _ _ _ _ _ H).
Qed.

(** The outcome of the scan of the releases is decided by the pages as
    [scan_result] reads them: it ends in a release exactly when that release
    is the first of the series and every release before it has a name; it
    ends without a release exactly when every page arrived and holds only
    named releases out of the series; it throws exactly when a page fails
    or a release without a name is met, before any release of the
    series. *)
Theorem for_await_releases_outcome_iff owner repo series releases result :
  outcome (for_await_releases owner repo series releases 0) = result <->
  scan_result series releases result.
Proof.
  unfold outcome, run. split.
  - intros <-. apply for_await_releases_inv.
  - intros H. now apply for_await_releases_outcome.
Qed.

(** ** What the accumulation of the issues returns, read off the pages *)

Lemma for_await_issues_fails options pages e later :
  forall page pulls log,
    fst (for_await_issues options (map inr pages ++ inl e :: later)
           page pulls log) = inl e.
Proof.
  induction pages as [|p pages IH]; intros page pulls log; [reflexivity|].
  cbn [map app for_await_issues]. rewrite bind_await_inr. apply IH.
Qed.

Lemma for_await_issues_inv options responses :
  forall page pulls log,
    match fst (for_await_issues options responses page pulls log) with
    | inr result =>
        exists pages, responses = map inr pages /\ result = pulls ++ concat pages
    | inl e => exists pages later, responses = map inr pages ++ inl e :: later
    end.
Proof.
  induction responses as [|r rs IH]; intros page pulls log.
  - exists []. split; [reflexivity | now rewrite app_nil_r].
  - cbn [for_await_issues]. destruct r as [e|p].
    + rewrite bind_await_inl. now exists [], rs.
    + rewrite bind_await_inr.
      specialize (IH (S page) (pulls ++ p) (log ++ [(ListForRepo options page, None)])).
      destruct (fst (for_await_issues options rs (S page) (pulls ++ p) _))
        as [e|result].
      * destruct IH as [pages [later ->]]. now exists (p :: pages), later.
      * destruct IH as [pages [-> ->]]. exists (p :: pages).
        split; [reflexivity | simpl; now rewrite app_assoc].
Qed.

Lemma for_await_issues_collect_inv options responses :
  collect_result responses (outcome (for_await_issues options responses 0 [])).
Proof.
  unfold outcome, run.
  assert (H := for_await_issues_inv options responses 0 [] []).
  destruct (fst (for_await_issues options responses 0 [] [])); exact H.
Qed.

Lemma for_await_issues_collect options responses result :
  collect_result responses result ->
  outcome (for_await_issues options responses 0 []) = result.
Proof.
  unfold outcome, run. destruct result as [e|pulls]; cbn [collect_result].
  - intros [pages [later ->]]. apply for_await_issues_fails.
  - intros [pages [-> ->]]. now rewrite for_await_issues_all.
Qed.

(** The accumulation returns a sequence exactly when every page arrived,
    and the sequence is then the concatenation of the pages; it throws [e]
    exactly when the first page that fails, fails with [e], whatever the
    pages before it hold: what was accumulated is lost. *)
Theorem for_await_issues_outcome_iff options responses result :
  outcome (for_await_issues options responses 0 []) = result <->
  collect_result responses result.
Proof.
  split.
  - intros <-. apply for_await_issues_collect_inv.
  - apply for_await_issues_collect.
Qed.

(** ** The whole operation, read off the responses *)

Lemma for_await_releases_history_free owner repo series releases page :
  history_free (for_await_releases owner repo series releases page).
Proof.
  revert page. induction releases as [|r rs IH]; intros page; simpl.
  - auto with async.
  - apply history_free_bind; [auto with async|]. intros a.
    apply history_free_bind; [auto with async|].
    intros [release|]; auto with async.
Qed.

Section CollectorOutcome.

Variable new_Date : string -> option Z.

(** The outcome of the operation is the outcome of its three stages in
    turn. *)
Lemma getIssuesByMilestone_outcome octokit owner repo milestone state :
  outcome (getIssuesByMilestone new_Date octokit owner repo milestone state) =
  match issues_getMilestone octokit owner repo milestone with
  | inl e => inl e
  | inr m =>
      match outcome (for_await_releases owner repo (series_of_title (title m))
                       (repos_listReleases octokit owner repo) 0) with
      | inl e => inl e
      | inr latest =>
          let options := listForRepo_options owner repo milestone state latest in
          match outcome (for_await_issues options
                           (issues_listForRepo octokit options) 0 []) with
          | inl e => inl e
          | inr pulls => inr (post_filter new_Date latest pulls)
          end
      end
  end.
Proof.
  unfold outcome at 1. unfold run, getIssuesByMilestone.
  destruct (issues_getMilestone octokit owner repo milestone) as [e|m];
    [reflexivity|].
  rewrite bind_await_inr. cbv zeta. unfold bind.
  rewrite (for_await_releases_history_free owner repo _ _ 0 _).
  destruct (outcome (for_await_releases owner repo _ _ 0)) as [e|latest];
    [reflexivity|].
  rewrite (for_await_issues_history_free _ _ 0 [] _).
  destruct (outcome (for_await_issues _ _ 0 [])); reflexivity.
Qed.

(** The outcome of [getIssuesByMilestone] is decided by the responses of the
    client and by nothing else.  A failed milestone fetch is thrown.
    Otherwise the scan of the releases, as [scan_result] reads the pages of
    releases, either throws or ends in [latest]; then the pages of issues
    asked with the options built from [latest], as [collect_result] reads
    them, either throw or give the issues, which are returned through the
    filter for [latest]. *)
Theorem getIssuesByMilestone_outcome_iff octokit owner repo milestone state
        result :
  outcome (getIssuesByMilestone new_Date octokit owner repo milestone state) =
    result <->
  match issues_getMilestone octokit owner repo milestone with
  | inl e => result = inl e
  | inr m =>
      exists scan,
        scan_result (series_of_title (title m))
                    (repos_listReleases octokit owner repo) scan /\
        match scan with
        | inl e => result = inl e
        | inr latest =>
            exists collected,
              collect_result
                (issues_listForRepo octokit
                   (listForRepo_options owner repo milestone state latest))
                collected /\
              result = match collected with
                       | inl e => inl e
                       | inr pulls => inr (post_filter new_Date latest pulls)
                       end
        end
  end.
Proof.
  rewrite getIssuesByMilestone_outcome.
  destruct (issues_getMilestone octokit owner repo milestone) as [e|m];
    [split; congruence|].
  split.
  - intros <-.
    exists (outcome (for_await_releases owner repo (series_of_title (title m))
                       (repos_listReleases octokit owner repo) 0)).
    split; [apply for_await_releases_inv|].
    destruct (outcome (for_await_releases _ _ _ _ 0)) as [e|latest];
      [reflexivity|].
    cbv zeta.
    exists (outcome (for_await_issues
                       (listForRepo_options owner repo milestone state latest)
                       (issues_listForRepo octokit
                          (listForRepo_options owner repo milestone state latest))
                       0 [])).
    split; [apply for_await_issues_collect_inv | reflexivity].
  - intros [scan [Hscan Hres]].
    unfold outcome at 1, run.
    rewrite (for_await_releases_outcome owner repo _ _ _ Hscan 0 []).
    destruct scan as [e|latest]; [congruence|].
    destruct Hres as [collected [Hcol ->]]. cbv zeta.
    now rewrite (for_await_issues_collect _ _ _ Hcol).
Qed.

End CollectorOutcome.

(** ** The order of the requests *)

Lemma for_await_milestones_pages_in_order owner repo sought responses :
  forall page log,
    exists k,
      k <= length responses /\
      map fst (snd (for_await_milestones owner repo sought responses page log)) =
      map fst log ++ map (ListMilestones owner repo) (seq page k).
Proof.
  induction responses as [|r rs IH]; intros page log.
  - exists 0. split; [apply Nat.le_refl | simpl; now rewrite app_nil_r].
  - cbn [for_await_milestones length]. destruct r as [e|p].
    + rewrite bind_await_inl. exists 1. split; [lia|]. cbn [snd].
      now rewrite map_app.
    + rewrite bind_await_inr. destruct (for_of_milestones sought p).
      * exists 1. split; [lia|]. cbn [snd ret]. now rewrite map_app.
      * destruct (IH (S page) (log ++ [(ListMilestones owner repo page, None)]))
          as [k [Hk Hlog]].
        exists (S k). split; [lia|]. rewrite Hlog, map_app, <- app_assoc.
        reflexivity.
Qed.

Lemma for_await_releases_pages_in_order owner repo series releases :
  forall page log,
    exists k,
      k <= length releases /\
      map fst (snd (for_await_releases owner repo series releases page log)) =
      map fst log ++ map (ListReleases owner repo) (seq page k).
Proof.
  induction releases as [|r rs IH]; intros page log.
  - exists 0. split; [apply Nat.le_refl | simpl; now rewrite app_nil_r].
  - cbn [for_await_releases length]. destruct r as [e|p].
    + rewrite bind_await_inl. exists 1. split; [lia|]. cbn [snd].
      now rewrite map_app.
    + rewrite bind_await_inr. destruct (find_release series p) as [e|[release|]].
      * rewrite bind_lift_inl. exists 1. split; [lia|]. cbn [snd].
        now rewrite map_app.
      * rewrite bind_lift_inr. exists 1. split; [lia|]. cbn [snd ret].
        now rewrite map_app.
      * rewrite bind_lift_inr.
        destruct (IH (S page) (log ++ [(ListReleases owner repo page, None)]))
          as [k [Hk Hlog]].
        exists (S k). split; [lia|]. rewrite Hlog, map_app, <- app_assoc.
        reflexivity.
Qed.

Lemma for_await_issues_pages_in_order options responses :
  forall page pulls log,
    exists j,
      j <= length responses /\
      map fst (snd (for_await_issues options responses page pulls log)) =
      map fst log ++ map (ListForRepo options) (seq page j).
Proof.
  induction responses as [|r rs IH]; intros page pulls log.
  - exists 0. split; [apply Nat.le_refl | simpl; now rewrite app_nil_r].
  - cbn [for_await_issues length]. destruct r as [e|p].
    + rewrite bind_await_inl. exists 1. split; [lia|]. cbn [snd].
      now rewrite map_app.
    + rewrite bind_await_inr.
      destruct (IH (S page) (pulls ++ p)
                   (log ++ [(ListForRepo options page, None)])) as [j [Hj Hlog]].
      exists (S j). split; [lia|]. rewrite Hlog, map_app, <- app_assoc.
      reflexivity.
Qed.

(** Whatever the client answers, [getMilestoneByTitle] requests pages of
    milestones only, from the first page on, in order and each once, and no
    more pages than the client has. *)
Theorem getMilestoneByTitle_request_order octokit owner repo sought :
  exists k,
    k <= length (issues_listMilestones octokit owner repo) /\
    map fst (requests (getMilestoneByTitle octokit owner repo sought)) =
    map (ListMilestones owner repo) (seq 0 k).
Proof.
  unfold requests, run, getMilestoneByTitle.
  destruct (for_await_milestones_pages_in_order owner repo sought
              (issues_listMilestones octokit owner repo) 0 []) as [k [Hk Hlog]].
  exists k. split; assumption.
Qed.

Section CollectorBehaviour.

Variable new_Date : string -> option Z.

(** Whatever the client answers, [getIssuesByMilestone] requests the
    milestone first, then pages of releases from the first on, in order and
    each once, then pages of issues from the first on, in order and each
    once, all with the options built from one outcome of the scan; no page
    of issues is requested before the last page of releases, and no page of
    milestones ever. *)
Theorem getIssuesByMilestone_request_order octokit owner repo milestone state :
  exists k j latest,
    k <= length (repos_listReleases octokit owner repo) /\
    j <= length (issues_listForRepo octokit
                   (listForRepo_options owner repo milestone state latest)) /\
    map fst (requests (getIssuesByMilestone new_Date octokit owner repo
                         milestone state)) =
    GetMilestone owner repo milestone
      :: map (ListReleases owner repo) (seq 0 k)
      ++ map (ListForRepo
                (listForRepo_options owner repo milestone state latest))
             (seq 0 j).
Proof.
  unfold requests, run, getIssuesByMilestone.
  destruct (issues_getMilestone octokit owner repo milestone) as [e|m].
  - exists 0, 0, None. repeat split; apply Nat.le_0_l.
  - rewrite bind_await_inr. cbv zeta. unfold bind.
    destruct (for_await_releases_pages_in_order owner repo
                (series_of_title (title m))
                (repos_listReleases octokit owner repo) 0
                ([] ++ [(GetMilestone owner repo milestone, None)]))
      as [k [Hk Hlog]].
    destruct (for_await_releases owner repo (series_of_title (title m))
                (repos_listReleases octokit owner repo) 0 _)
      as [[e|latest] log1]; cbn [snd] in Hlog.
    + exists k, 0, None. repeat split; [assumption | apply Nat.le_0_l|].
      cbn [snd]. rewrite Hlog. simpl. now rewrite app_nil_r.
    + destruct (for_await_issues_pages_in_order
                  (listForRepo_options owner repo milestone state latest)
                  (issues_listForRepo octokit
                     (listForRepo_options owner repo milestone state latest))
                  0 [] log1) as [j [Hj Hlog2]].
      exists k, j, latest. repeat split; [assumption | assumption|].
      destruct (for_await_issues _ _ 0 [] log1) as [[e|pulls] log2];
        cbn [snd ret] in *; rewrite Hlog2, Hlog; reflexivity.
Qed.

(** ** The issues returned after a published release *)

Lemma filter_after_invalid_date (pulls : list Issue) :
  filter (closed_after_release new_Date None) pulls = [].
Proof.
  induction pulls as [|pull pulls IH]; [reflexivity|].
  simpl. unfold closed_after_release at 1.
  destruct (closed_at pull) as [[|c s]|]; exact IH.
Qed.

(** When the release found has a publish timestamp that is a non-empty
    string but no valid date, the operation returns no issue at all: every
    comparison with the invalid date is false. *)
Theorem getIssuesByMilestone_invalid_publish_date octokit owner repo milestone
        state m release scanned p pages :
  issues_getMilestone octokit owner repo milestone = inr m ->
  first_in_series (series_of_title (title m))
                  (repos_listReleases octokit owner repo)
                  (Some release) scanned ->
  published_at release = Some p ->
  p <> "" ->
  new_Date p = None ->
  issues_listForRepo octokit
    (listForRepo_options owner repo milestone state (Some release)) =
    map inr pages ->
  outcome (getIssuesByMilestone new_Date octokit owner repo milestone state) =
  inr [].
Proof.
  intros Hm Hscan Hp Hne Hdate Hpages.
  rewrite (getIssuesByMilestone_all_pages new_Date _ _ _ _ _ _ _ _ _
             Hm Hscan Hpages).
  unfold post_filter. rewrite Hp. destruct p as [|c s]; [now elim Hne|].
  now rewrite Hdate, filter_after_invalid_date.
Qed.

(** When the release found has a non-empty publish timestamp [p], the
    issues returned are issues of the pages, in the order of the pages, and
    an issue is kept exactly when its closed-at timestamp is a non-empty
    string, both timestamps are valid dates, and the time value of the
    closing is greater than that of the publication.  Open issues, issues
    closed at the very time of publication or before, and issues with an
    unreadable closed-at timestamp are left out. *)
Theorem getIssuesByMilestone_returned_issues octokit owner repo milestone
        state m release scanned p pages :
  issues_getMilestone octokit owner repo milestone = inr m ->
  first_in_series (series_of_title (title m))
                  (repos_listReleases octokit owner repo)
                  (Some release) scanned ->
  published_at release = Some p ->
  p <> "" ->
  issues_listForRepo octokit
    (listForRepo_options owner repo milestone state (Some release)) =
    map inr pages ->
  exists keep : Issue -> bool,
    outcome (getIssuesByMilestone new_Date octokit owner repo milestone state) =
      inr (filter keep (concat pages)) /\
    forall pull,
      keep pull = true <->
      exists c tp tc,
        closed_at pull = Some c /\ c <> "" /\
        new_Date p = Some tp /\ new_Date c = Some tc /\ (tp < tc)%Z.
Proof.
  intros Hm Hscan Hp Hne Hpages.
  exists (closed_after_release new_Date (new_Date p)). split.
  - rewrite (getIssuesByMilestone_all_pages new_Date _ _ _ _ _ _ _ _ _
               Hm Hscan Hpages).
    unfold post_filter. rewrite Hp. destruct p; [now elim Hne | reflexivity].
  - intros pull. unfold closed_after_release, Date_lt. split.
    + destruct (closed_at pull) as [[|a c]|]; try discriminate.
      destruct (new_Date p) as [tp|]; [|discriminate].
      destruct (new_Date (String a c)) as [tc|] eqn:Ec; [|discriminate].
      intros H. exists (String a c), tp, tc.
      repeat split; try assumption; [discriminate | now apply Z.ltb_lt].
    + intros [c [tp [tc [-> [Hc [-> [Hd Hlt]]]]]]].
      destruct c as [|a c]; [now elim Hc|].
      rewrite Hd. now apply Z.ltb_lt.
Qed.

End CollectorBehaviour.

Section CollectorSubsequence.

Variable new_Date : string -> option Z.

Lemma post_filter_is_filter latest (pulls : list Issue) :
  exists keep : Issue -> bool, post_filter new_Date latest pulls = filter keep pulls.
Proof.
  assert (Hall : pulls = filter (fun _ => true) pulls).
  { induction pulls as [|x l IH]; simpl; [reflexivity | now rewrite <- IH]. }
  unfold post_filter. destruct latest as [release|]; [|eauto].
  destruct (published_at release) as [[|c p]|]; eauto.
Qed.

(** Whatever the client answers, when [getIssuesByMilestone] returns, every
    page of issues has arrived and the result is a selection of their
    concatenation that keeps the order: no issue is added, moved or
    repeated. *)
Theorem getIssuesByMilestone_returns_subsequence octokit owner repo milestone
        state result :
  outcome (getIssuesByMilestone new_Date octokit owner repo milestone state) =
    inr result ->
  exists latest pages (keep : Issue -> bool),
    issues_listForRepo octokit
      (listForRepo_options owner repo milestone state latest) = map inr pages /\
    result = filter keep (concat pages).
Proof.
  rewrite getIssuesByMilestone_outcome.
  destruct (issues_getMilestone octokit owner repo milestone) as [e|m];
    [discriminate|].
  destruct (outcome (for_await_releases _ _ _ _ 0)) as [e|latest];
    [discriminate|].
  cbv zeta.
  assert (Hcol := for_await_issues_collect_inv
                    (listForRepo_options owner repo milestone state latest)
                    (issues_listForRepo octokit
                       (listForRepo_options owner repo milestone state latest))).
  destruct (outcome (for_await_issues _ _ 0 [])) as [e|pulls]; [discriminate|].
  destruct Hcol as [pages [Hpages ->]]. intros [= <-].
  destruct (post_filter_is_filter latest (concat pages)) as [keep Hkeep].
  now exists latest, pages, keep.
Qed.

End CollectorSubsequence.

(** * The further properties on the sample data *)

Module MoreRuns.

Import Sample.

Lemma scan_finds_misdated :
  first_in_series "16.2" [inr [rc_16_3; misdated]] (Some misdated) 1.
Proof.
  exists [], [rc_16_3], [], [].
  repeat split. repeat constructor.
Defined.

Lemma getIssuesByMilestone_invalid_publish_date_witness :
  outcome (getIssuesByMilestone Iso8601.parse repository_with_misdated
             owner repo 95 None) = inr [].
Proof.
  apply (getIssuesByMilestone_invalid_publish_date Iso8601.parse
           repository_with_misdated owner repo 95 None gutenberg_16_2
           misdated 1 "last Wednesday" issue_pages).
  - reflexivity.
  - exact scan_finds_misdated.
  - reflexivity.
  - discriminate.
  - reflexivity.
  - reflexivity.
Defined.

Lemma getIssuesByMilestone_returned_issues_witness :
  exists keep : Issue -> bool,
    outcome (getIssuesByMilestone Iso8601.parse repository owner repo 95
               (Some closed)) = inr (filter keep (concat issue_pages)) /\
    forall pull,
      keep pull = true <->
      exists c tp tc,
        closed_at pull = Some c /\ c <> "" /\
        Iso8601.parse "2023-07-05T12:00:00Z" = Some tp /\
        Iso8601.parse c = Some tc /\ (tp < tc)%Z.
Proof.
  apply (getIssuesByMilestone_returned_issues Iso8601.parse repository
           owner repo 95 (Some closed) gutenberg_16_2 v16_2_0 1
           "2023-07-05T12:00:00Z" issue_pages).
  - reflexivity.
  - exact Runs.scan_finds_v16_2_0.
  - reflexivity.
  - discriminate.
  - reflexivity.
Defined.

Lemma getIssuesByMilestone_returns_subsequence_witness :
  exists latest pages (keep : Issue -> bool),
    issues_listForRepo repository
      (listForRepo_options owner repo 95 (Some closed) latest) = map inr pages /\
    [closed_after; closed_later] = filter keep (concat pages).
Proof.
  apply (getIssuesByMilestone_returns_subsequence Iso8601.parse repository
           owner repo 95 (Some closed) [closed_after; closed_later]).
  reflexivity.
Defined.

End MoreRuns.
